(** * mylib_hello: an OpenMP parallel region that greets from every thread

    Source: [src/mylib/mylib.c]

<<
    void mylib_hello() {
        #pragma omp parallel
        {
            int tid = omp_get_thread_num();
            printf("[mylib] Hello from thread %d\n", tid);
        }
    }
>>

    The function is embedded as a small-step interleaving semantics.

    - The runtime.  On [#pragma omp parallel] the encountering thread becomes
      thread 0 of a new team and the runtime adds the other threads; how many
      is the runtime's choice ([Fork extra]).  Member [i] of the team has
      thread number [i].  The region ends with an implicit barrier: the
      function returns when every member has reached the end of the block
      ([Join]).
    - The block.  Every member runs the two statements of the block; its
      program counter ([pc]) says which one is next and holds the local [tid].
    - The scheduler is unconstrained: a schedule is any list of moves, and a
      move that is not enabled stops the execution ([None]).
    - Standard output is a stream of characters with an error indicator.  The
      text of one [printf] call reaches it in one piece, since a stream is
      locked for the duration of a call.  What the stream does with the write
      of each thread is a parameter ([io]); [healthy] takes every write.
    - Everything else the process can observe is the component [ext] of the
      state, of an arbitrary type. *)

From Stdlib Require Import ZArith Lia Ascii String Decimal DecimalString DecimalZ.
From Stdlib Require Import Permutation.
From stdpp Require Import list.

Local Open Scope Z_scope.

(** ** C integers *)

Module CInt.

Definition INT_MAX : Z := 2147483647.
Definition INT_MIN : Z := -2147483648.

(** Conversion of a mathematical integer to a 32-bit [int]. *)
Definition wrap (z : Z) : Z := (z + 2 ^ 31) mod 2 ^ 32 - 2 ^ 31.

Definition in_range (z : Z) : Prop := INT_MIN <= z <= INT_MAX.

End CInt.

(** ** Text *)

Module Text.

(** The character written [\n] in a C literal. *)
Definition nl : ascii := "010"%char.

Definition is_nl (c : ascii) : bool := Ascii.eqb c nl.

(** Rest of [s] after its first [n] characters. *)
Fixpoint drop (n : nat) (s : string) : string :=
  match n, s with
  | O, _ => s
  | S n', String _ s' => drop n' s'
  | S _, EmptyString => EmptyString
  end.

(** [strip_prefix p s] is [Some r] when [s] is [p] followed by [r]. *)
Fixpoint strip_prefix (p s : string) : option string :=
  match p, s with
  | EmptyString, _ => Some s
  | String a p', String b s' =>
      if Ascii.eqb a b then strip_prefix p' s' else None
  | String _ _, EmptyString => None
  end.

(** Splitting at newlines: ["a\nb"] gives [["a"; "b"]], and a text that ends
    with a newline gives a last, empty, piece. *)
Fixpoint split_nl (s : string) : list string :=
  match s with
  | EmptyString => [EmptyString]
  | String c s' =>
      if is_nl c then EmptyString :: split_nl s'
      else match split_nl s' with
           | [] => [String c EmptyString]
           | l :: ls => String c l :: ls
           end
  end.

(** The newline-terminated lines of a text, without their newline. *)
Definition complete_lines (s : string) : list string := removelast (split_nl s).

(** What follows the last newline: an unterminated line, if not empty. *)
Definition pending (s : string) : string := List.last (split_nl s) EmptyString.

Fixpoint count_nl (s : string) : nat :=
  match s with
  | EmptyString => O
  | String c s' => (if is_nl c then 1 else 0) + count_nl s'
  end%nat.

(** Concatenation of a list of chunks. *)
Fixpoint cat (l : list string) : string :=
  match l with
  | [] => EmptyString
  | x :: l' => (x ++ cat l')%string
  end.

End Text.

(** ** The output primitive: [printf] with [%d] directives *)

Module Stdio.
Import Text.

(** Decimal rendering of an [int] argument, as [%d] prints it. *)
Definition decimal (z : Z) : string := NilZero.string_of_int (Z.to_int z).

(** Reading a decimal numeral back. *)
Definition read_decimal (s : string) : option Z :=
  option_map Z.of_int (NilZero.int_of_string s).

(** Expansion of a format string whose directives are all [%d], with one
    [int] argument: ordinary characters are copied, [%d] is replaced by the
    rendering of the argument. *)
Fixpoint format (fmt : string) (arg : Z) : string :=
  match fmt with
  | EmptyString => EmptyString
  | String c rest =>
      match rest with
      | String d rest' =>
          if (Ascii.eqb c "%" && Ascii.eqb d "d")%bool
          then (decimal arg ++ format rest' arg)%string
          else String c (format rest arg)
      | EmptyString => String c EmptyString
      end
  end.

(** A stream: the bytes it has received and its error indicator
    (what [ferror] reports). *)
Record stream : Type := Stream { content : string; error : bool }.

(** What the environment does with one write: it takes all of it, or it
    fails after taking only the first [n] characters. *)
Inductive outcome : Type :=
| Written
| Failed (n : nat).

Definition take (n : nat) (s : string) : string := String.substring 0 n s.

(** [printf fmt arg] on stream [f].  The whole text of one call reaches the
    stream in one piece (the stream is locked for the duration of the call).
    The result is the stream and the value [printf] returns: the number of
    characters transmitted, or a negative value after an output error. *)
Definition printf (o : outcome) (f : stream) (fmt : string) (arg : Z) : stream * Z :=
  let text := format fmt arg in
  match o with
  | Written =>
      (Stream (content f ++ text)%string (error f), Z.of_nat (String.length text))
  | Failed n =>
      (Stream (content f ++ take n text)%string true, -1)
  end.

End Stdio.

(** ** The parallel region *)

Module Omp.

(** Where a member of the team stands in the structured block. *)
Inductive pc : Type :=
| AtGetTid              (* about to run  int tid = omp_get_thread_num();  *)
| AtPrintf (tid : Z)    (* about to run  printf(..., tid);                 *)
| AtEnd.                (* waiting at the barrier that ends the region    *)

Definition at_end (p : pc) : bool :=
  match p with AtEnd => true | _ => false end.

(** [omp_get_thread_num()] called by the member at position [i] of the
    team: its thread number, as the [int] the function returns. *)
Definition omp_get_thread_num (i : nat) : Z := CInt.wrap (Z.of_nat i).

(** Progress of a call: not yet in the region, inside it with the team
    (member [i] of the list is thread number [i]), or back in the caller. *)
Inductive phase : Type :=
| Called
| InRegion (team : list pc)
| Returned.

(** The process: the phase of the call, standard output, and everything else
    the process could observe (files, sockets, environment, ...). *)
Record state (E : Type) : Type :=
  State { ph : phase; stdout : Stdio.stream; ext : E }.

Arguments State {E} _ _ _.
Arguments ph {E} _.
Arguments stdout {E} _.
Arguments ext {E} _.

(** What the scheduler and the runtime decide: the runtime creates [extra]
    threads besides the encountering one, the scheduler lets thread [i] run
    its next statement, or the barrier is released. *)
Inductive move : Type :=
| Fork (extra : nat)
| Run (i : nat)
| Join.

End Omp.

(** ** mylib_hello *)

Module Hello.
Import Text Stdio Omp.

(** The literal ["[mylib] Hello from thread %d\n"]. *)
Definition hello_fmt : string :=
  ("[mylib] Hello from thread %d" ++ String nl EmptyString)%string.

Section Semantics.
Context {E : Type}.

(** The environment of the output stream: what happens to the write of
    thread [i] (a thread writes at most once in a call). *)
Variable io : nat -> outcome.

(** The state in which the caller has just called [mylib_hello()]. *)
Definition call (out : stream) (e : E) : state E := State Called out e.

(** [#pragma omp parallel]: the encountering thread becomes thread 0 of a
    team that the runtime completes with [extra] more threads; every
    member starts at the top of the block. *)
Definition fork (extra : nat) (s : state E) : option (state E) :=
  match ph s with
  | Called =>
      Some (State (InRegion (AtGetTid :: replicate extra AtGetTid))
              (stdout s) (ext s))
  | _ => None
  end.

(** One statement of the block, run by thread [i]. The value that [printf]
    returns is dropped, as in the source. *)
Definition thread_step (i : nat) (s : state E) : option (state E) :=
  match ph s with
  | InRegion team =>
      match team !! i with
      | Some AtGetTid =>
          let tid := omp_get_thread_num i in
          Some (State (InRegion (<[i := AtPrintf tid]> team)) (stdout s) (ext s))
      | Some (AtPrintf tid) =>
          let '(f, _) := printf (io i) (stdout s) hello_fmt tid in
          Some (State (InRegion (<[i := AtEnd]> team)) f (ext s))
      | Some AtEnd => None
      | None => None
      end
  | _ => None
  end.

(** The end of the region: once every member waits at the barrier the team
    is dissolved and [mylib_hello] returns (it returns no value). *)
Definition join (s : state E) : option (state E) :=
  match ph s with
  | InRegion team =>
      if forallb at_end team
      then Some (State Returned (stdout s) (ext s))
      else None
  | _ => None
  end.

Definition step (m : move) (s : state E) : option (state E) :=
  match m with
  | Fork extra => fork extra s
  | Run i => thread_step i s
  | Join => join s
  end.

(** Running a schedule; [None] when the schedule asks for a move that is
    not enabled. *)
Fixpoint exec (sch : list move) (s : state E) : option (state E) :=
  match sch with
  | [] => Some s
  | m :: sch' =>
      match step m s with
      | Some s' => exec sch' s'
      | None => None
      end
  end.

(** [mylib_hello()], called in a process whose standard output is [out] and
    whose other state is [e], with a runtime that completes the team with
    [extra] threads and a scheduler that then follows [sch]: the state
    reached, or [None] when the schedule cannot be followed. *)
Definition mylib_hello (extra : nat) (sch : list move) (out : stream) (e : E)
    : option (state E) :=
  exec (Fork extra :: sch) (call out e).

End Semantics.

(** A stream that takes every write. *)
Definition healthy : nat -> outcome := fun _ => Written.

(** Number of workers in the team that [Fork extra] creates. *)
Definition workerCount (extra : nat) : nat := S extra.

(** What standard output holds in state [s] beyond what stream [f0] held:
    the text a call made on [f0] has printed when it is in state [s]. *)
Definition printed {E : Type} (f0 : stream) (s : state E) : string :=
  drop (String.length (content f0)) (content (stdout s)).

(** The line of thread number [n], without its newline. *)
Definition line_of (n : Z) : string :=
  ("[mylib] Hello from thread " ++ decimal n)%string.

(** The thread index a line carries, when it has the form of [line_of]. *)
Definition line_index (l : string) : option Z :=
  match strip_prefix "[mylib] Hello from thread " l with
  | Some r => read_decimal r
  | None => None
  end.

(** The indices carried by the complete lines of a text, in the order of
    the lines. *)
Definition printed_indices (out : string) : list Z :=
  omap line_index (complete_lines out).

(** Ascending sort of a list of indices. *)
Fixpoint insert_asc (x : Z) (l : list Z) : list Z :=
  match l with
  | [] => [x]
  | y :: l' => if x <=? y then x :: y :: l' else y :: insert_asc x l'
  end.

Fixpoint sort_asc (l : list Z) : list Z :=
  match l with
  | [] => []
  | x :: l' => insert_asc x (sort_asc l')
  end.

(** The schedule that runs the threads one after the other. *)
Definition in_turn (extra : nat) : list move :=
  Fork extra :: flat_map (fun i => [Run i; Run i]) (seq 0 (S extra)) ++ [Join].

(** The text the [printf] of thread [i] expands to. *)
Definition greeting (i : nat) : string := format hello_fmt (omp_get_thread_num i).

Definition failed (o : outcome) : bool :=
  match o with
  | Written => false
  | Failed _ => true
  end.

(** What reaches the stream from the [printf] of thread [i]. *)
Definition emitted (io : nat -> outcome) (i : nat) : string :=
  match io i with
  | Written => greeting i
  | Failed n => take n (greeting i)
  end.

(** Statements a team member still has to run. *)
Definition steps_left (p : pc) : nat :=
  match p with
  | AtGetTid => 2
  | AtPrintf _ => 1
  | AtEnd => 0
  end.

(** Moves left before the call returns, once the team exists. *)
Definition remaining {E : Type} (s : state E) : nat :=
  match ph s with
  | Called => 0
  | InRegion team => S (sum_list (map steps_left team))
  | Returned => 0
  end.

(** The threads that have run their [printf], in the order in which they did:
    [done] accounts for the stream [f] when started from [f0]. *)
Definition accounts (io : nat -> outcome) (f0 f : stream) (done : list nat) : Prop :=
  content f = (content f0 ++ cat (map (emitted io) done))%string
  /\ error f = (error f0 || existsb (fun i => failed (io i)) done)%bool.

(** Invariant of the executions of a call made in a process with standard
    output [f0] and surroundings [e0], for a team of [S extra] threads. *)
Definition inv {E : Type} (io : nat -> outcome) (extra : nat)
    (f0 : stream) (e0 : E) (s : state E) : Prop :=
  ext s = e0 /\
  match ph s with
  | Called => stdout s = f0
  | InRegion team =>
      length team = S extra
      /\ (forall i tid, team !! i = Some (AtPrintf tid) -> tid = omp_get_thread_num i)
      /\ exists done,
           NoDup done
           /\ (forall i, In i done <-> team !! i = Some AtEnd)
           /\ accounts io f0 (stdout s) done
  | Returned =>
      exists done,
        Permutation done (seq 0 (S extra))
        /\ accounts io f0 (stdout s) done
  end.

End Hello.


(** ** Concrete calls *)

Module Demo.
Import Text Stdio Omp Hello.

(** Standard output before the call: empty, or holding earlier output. *)
Definition fresh : stream := Stream EmptyString false.
Definition used : stream := Stream "starting" false.

(** Schedules of the team after the fork. *)
Definition solo : list move := [Run 0; Run 0; Join].
Definition duo : list move := [Run 1; Run 0; Run 1; Run 0; Join].
Definition quartet : list move :=
  [Run 3; Run 0; Run 3; Run 1; Run 2; Run 1; Run 0; Run 2; Join].

(** The state a schedule leads to (the state of the call itself when the
    schedule cannot be run). *)
Definition final (io : nat -> outcome) (extra : nat) (sch : list move)
    (f0 : stream) : state unit :=
  match mylib_hello io extra sch f0 tt with
  | Some s => s
  | None => call f0 tt
  end.

(** A stream that rejects the write of thread 1 after four characters. *)
Definition flaky : nat -> outcome :=
  fun i => match i with 1%nat => Failed 4 | _ => Written end.

End Demo.

(** ** Schedules and what they make of the output *)

Module Schedules.
Import Text Stdio Omp Hello.

(** Number of moves of thread [i] in a schedule. *)
Fixpoint runs (i : nat) (sch : list move) : nat :=
  match sch with
  | [] => O
  | Run j :: sch' => ((if Nat.eqb i j then 1 else 0) + runs i sch')%nat
  | _ :: sch' => runs i sch'
  end.

Definition is_fork (m : move) : bool :=
  match m with
  | Fork _ => true
  | _ => false
  end.

(** The schedule, after the fork, in which the threads run the whole block
    one after the other in the order [order], and the barrier then opens. *)
Definition block_by_block (order : list nat) : list move :=
  flat_map (fun i => [Run i; Run i]) order ++ [Join].

(** The threads of a schedule in the order of their second move, the one
    that runs [printf]; [once] lists the threads that have already made a
    move. *)
Fixpoint print_order_from (once : list nat) (sch : list move) : list nat :=
  match sch with
  | [] => []
  | Run i :: sch' =>
      if existsb (Nat.eqb i) once
      then i :: print_order_from once sch'
      else print_order_from (i :: once) sch'
  | _ :: sch' => print_order_from once sch'
  end.

Definition print_order (sch : list move) : list nat := print_order_from [] sch.

(** Statements thread [i] still has to run in state [s]. *)
Definition steps_left_of {E : Type} (s : state E) (i : nat) : nat :=
  match ph s with
  | InRegion team =>
      match team !! i with
      | Some p => steps_left p
      | None => O
      end
  | _ => O
  end.



End Schedules.

(** * The definitions on concrete inputs *)

Module Checks.
Import Text Stdio Omp Hello.

Example wrap_small : CInt.wrap 3 = 3.
Proof. reflexivity. Qed.

Example wrap_int_max : CInt.wrap CInt.INT_MAX = CInt.INT_MAX.
Proof. reflexivity. Qed.

Example wrap_past_int_max : CInt.wrap (CInt.INT_MAX + 1) = CInt.INT_MIN.
Proof. reflexivity. Qed.

Example decimal_zero : decimal 0 = "0"%string.
Proof. reflexivity. Qed.

Example decimal_several_digits : decimal 1024 = "1024"%string.
Proof. reflexivity. Qed.

Example decimal_negative : decimal (-17) = "-17"%string.
Proof. reflexivity. Qed.

Example read_decimal_digits : read_decimal "305" = Some 305.
Proof. reflexivity. Qed.

Example read_decimal_letters : read_decimal "3o5" = None.
Proof. reflexivity. Qed.

Example format_hello_7 :
  format hello_fmt 7 = ("[mylib] Hello from thread 7" ++ String nl EmptyString)%string.
Proof. reflexivity. Qed.

Example format_plain_text : format "no directive" 7 = "no directive"%string.
Proof. reflexivity. Qed.

Example lines_of_text :
  complete_lines ("ab" ++ String nl ("c" ++ String nl "de"))%string
  = ["ab"%string; "c"%string]
  /\ pending ("ab" ++ String nl ("c" ++ String nl "de"))%string = "de"%string.
Proof. split; reflexivity. Qed.

Example line_index_of_line : line_index "[mylib] Hello from thread 12" = Some 12.
Proof. reflexivity. Qed.

Example line_index_of_other_text : line_index "[mylib] Goodbye" = None.
Proof. reflexivity. Qed.

Example sort_asc_example : sort_asc [3; 1; 0; 2] = [0; 1; 2; 3].
Proof. reflexivity. Qed.

(** Two workers, thread 1 printing first. *)
Example two_workers :
  option_map (fun s => (ph s, stdout s)) (mylib_hello healthy 1 Demo.duo Demo.fresh tt)
  = Some (Returned,
          Stream ("[mylib] Hello from thread 1" ++ String nl
                    ("[mylib] Hello from thread 0" ++ String nl EmptyString))%string
            false).
Proof. reflexivity. Qed.

(** The threads one after the other. *)
Example three_workers_in_turn :
  option_map (fun s => complete_lines (printed Demo.used s))
    (mylib_hello healthy 2 (tl (in_turn 2)) Demo.used tt)
  = Some ["[mylib] Hello from thread 0"%string;
          "[mylib] Hello from thread 1"%string;
          "[mylib] Hello from thread 2"%string].
Proof. reflexivity. Qed.

(** The barrier does not open while a thread has not printed. *)
Example join_too_early :
  mylib_hello healthy 1 [Run 0; Run 0; Run 1; Join] Demo.fresh tt = None.
Proof. reflexivity. Qed.

(** A thread runs the block once: it has no third statement. *)
Example no_third_statement :
  mylib_hello healthy 0 [Run 0; Run 0; Run 0] Demo.fresh tt = None.
Proof. reflexivity. Qed.

(** There is no thread outside the team. *)
Example no_thread_outside_team :
  mylib_hello healthy 1 [Run 2] Demo.fresh tt = None.
Proof. reflexivity. Qed.

(** Nothing runs after the return. *)
Example nothing_after_return :
  mylib_hello healthy 0 (Demo.solo ++ [Run 0]) Demo.fresh tt = None.
Proof. reflexivity. Qed.

(** A write that fails after four characters. *)
Example failed_write :
  option_map (fun s => (ph s, stdout s)) (mylib_hello Demo.flaky 1 Demo.duo Demo.fresh tt)
  = Some (Returned,
          Stream ("[myl" ++ "[mylib] Hello from thread 0" ++ String nl EmptyString)%string
            true).
Proof. reflexivity. Qed.

End Checks.

(** * Facts about text *)

Module TextFacts.
Import Text.

Local Open Scope string_scope.

Lemma app_empty_r (s : string) : s ++ EmptyString = s.
Proof. induction s as [|c s IH]; simpl; [reflexivity | now rewrite IH]. Qed.

Lemma app_assoc (a b c : string) : a ++ (b ++ c) = (a ++ b) ++ c.
Proof. induction a as [|x a IH]; simpl; [reflexivity | now rewrite IH]. Qed.

Lemma length_app (a b : string) :
  String.length (a ++ b) = (String.length a + String.length b)%nat.
Proof. induction a as [|x a IH]; simpl; [reflexivity | now rewrite IH]. Qed.

Lemma drop_app (a b : string) : drop (String.length a) (a ++ b) = b.
Proof. induction a as [|x a IH]; simpl; [reflexivity | exact IH]. Qed.

Lemma strip_prefix_app (p r : string) : strip_prefix p (p ++ r) = Some r.
Proof.
  induction p as [|x p IH]; simpl; [reflexivity |].
  now rewrite Ascii.eqb_refl.
Qed.

Lemma cat_app (l1 l2 : list string) : cat (l1 ++ l2)%list = cat l1 ++ cat l2.
Proof.
  induction l1 as [|x l1 IH]; simpl; [reflexivity |].
  now rewrite IH, app_assoc.
Qed.

Lemma count_nl_app (a b : string) :
  count_nl (a ++ b) = (count_nl a + count_nl b)%nat.
Proof.
  induction a as [|x a IH]; simpl; [reflexivity |].
  rewrite IH. lia.
Qed.

Lemma split_nl_not_nil (s : string) : split_nl s <> [].
Proof.
  induction s as [|c s IH]; simpl; [discriminate |].
  destruct (is_nl c); [discriminate |].
  destruct (split_nl s); discriminate.
Qed.

(** A newline-free piece followed by a newline is the first line. *)
Lemma split_nl_line (l rest : string) :
  count_nl l = O ->
  split_nl (l ++ String nl rest) = l :: split_nl rest.
Proof.
  induction l as [|c l IH]; simpl; intros Hl.
  - reflexivity.
  - destruct (is_nl c); [discriminate |].
    now rewrite (IH Hl).
Qed.

Lemma length_split_nl (s : string) : length (split_nl s) = S (count_nl s).
Proof.
  induction s as [|c s IH]; simpl; [reflexivity |].
  destruct (is_nl c); simpl; [now rewrite IH |].
  destruct (split_nl s) as [|l ls]; simpl in *; congruence.
Qed.

Lemma length_complete_lines (s : string) :
  length (complete_lines s) = count_nl s.
Proof.
  unfold complete_lines.
  pose proof (length_split_nl s) as H.
  pose proof (split_nl_not_nil s) as Hne.
  rewrite (app_removelast_last EmptyString Hne) in H.
  rewrite List.length_app in H. simpl in H. lia.
Qed.

(** Lines never contain a newline. *)
Lemma split_nl_no_nl (s : string) : Forall (fun l => count_nl l = O) (split_nl s).
Proof.
  induction s as [|c s IH]; simpl.
  - repeat constructor.
  - destruct (is_nl c) eqn:Hc.
    + constructor; [reflexivity | exact IH].
    + destruct (split_nl s) as [|l ls].
      * repeat constructor. simpl. now rewrite Hc.
      * inversion IH; subst. constructor; [simpl; now rewrite Hc | assumption].
Qed.

(** The text of a sequence of newline-terminated lines splits back into
    these lines, and nothing is left pending. *)
Lemma split_nl_cat (ls : list string) :
  Forall (fun l => count_nl l = O) ls ->
  split_nl (cat (map (fun l => l ++ String nl EmptyString) ls))
  = (ls ++ [EmptyString])%list.
Proof.
  induction 1 as [|l ls Hl _ IH]; simpl; [reflexivity |].
  rewrite <- app_assoc. simpl.
  now rewrite (split_nl_line _ _ Hl), IH.
Qed.

Lemma complete_lines_cat (ls : list string) :
  Forall (fun l => count_nl l = O) ls ->
  complete_lines (cat (map (fun l => l ++ String nl EmptyString) ls)) = ls.
Proof.
  intros H. unfold complete_lines. rewrite (split_nl_cat _ H).
  apply removelast_last.
Qed.

Lemma pending_cat (ls : list string) :
  Forall (fun l => count_nl l = O) ls ->
  pending (cat (map (fun l => l ++ String nl EmptyString) ls)) = EmptyString.
Proof.
  intros H. unfold pending. rewrite (split_nl_cat _ H).
  apply last_last.
Qed.

End TextFacts.

(** * Facts about C integers and [printf] *)

Module StdioFacts.
Import Text Stdio.

Lemma wrap_in_range (z : Z) : CInt.INT_MIN <= z <= CInt.INT_MAX -> CInt.wrap z = z.
Proof.
  unfold CInt.wrap, CInt.INT_MIN, CInt.INT_MAX. intros H.
  rewrite Z.mod_small; lia.
Qed.

Lemma wrap_range (z : Z) : CInt.in_range (CInt.wrap z).
Proof.
  unfold CInt.in_range, CInt.wrap, CInt.INT_MIN, CInt.INT_MAX.
  pose proof (Z.mod_pos_bound (z + 2 ^ 31) (2 ^ 32) ltac:(lia)). lia.
Qed.

Lemma uint_digits_no_nl (d : uint) : count_nl (NilEmpty.string_of_uint d) = O.
Proof. induction d; simpl; auto. Qed.

Lemma decimal_no_nl (z : Z) : count_nl (decimal z) = O.
Proof.
  unfold decimal.
  destruct (Z.to_int z) as [d|d]; simpl;
    destruct d; simpl; auto using uint_digits_no_nl.
Qed.

Lemma decimal_not_empty (z : Z) : decimal z <> EmptyString.
Proof.
  unfold decimal.
  destruct (Z.to_int z) as [d|d]; simpl; [| discriminate].
  destruct d; simpl; discriminate.
Qed.

(** Reading back what [%d] prints gives the number printed. *)
Lemma read_decimal_decimal (z : Z) : read_decimal (decimal z) = Some z.
Proof.
  unfold read_decimal, decimal.
  rewrite NilZero.isi.
  - simpl. now rewrite DecimalZ.of_to.
  - destruct z; simpl; try discriminate.
    intros [= H]. now apply (DecimalPos.Unsigned.to_uint_nonnil p).
  - destruct z; simpl; try discriminate.
    intros [= H]. now apply (DecimalPos.Unsigned.to_uint_nonnil p).
Qed.

Lemma decimal_inj (a b : Z) : decimal a = decimal b -> a = b.
Proof.
  intros H. apply (f_equal read_decimal) in H.
  rewrite !read_decimal_decimal in H. congruence.
Qed.

(** A successful [printf] appends the expanded text and nothing else. *)
Lemma printf_written (f : stream) (fmt : string) (arg : Z) :
  fst (printf Written f fmt arg)
  = Stream (content f ++ format fmt arg)%string (error f).
Proof. reflexivity. Qed.

(** A failed [printf] sets the error indicator and returns a negative value. *)
Lemma printf_failed (f : stream) (fmt : string) (arg : Z) (n : nat) :
  error (fst (printf (Failed n) f fmt arg)) = true
  /\ snd (printf (Failed n) f fmt arg) < 0.
Proof. split; simpl; [reflexivity | lia]. Qed.

End StdioFacts.

(** * Executions of mylib_hello *)

Module HelloFacts.
Import Text Stdio Omp Hello.

Local Open Scope nat_scope.

Section Executions.
Context {E : Type}.
Variable io : nat -> outcome.

Lemma exec_app (a b : list move) (s : state E) :
  exec io (a ++ b) s =
  match exec io a s with
  | Some s' => exec io b s'
  | None => None
  end.
Proof.
  revert s. induction a as [|m a IH]; intros s; simpl; [reflexivity |].
  destruct (step io m s); [apply IH | reflexivity].
Qed.

(** The first move of a call is the fork. *)
Lemma exec_call (sch : list move) (f0 : stream) (e0 : E) (s' : state E) :
  exec io sch (call f0 e0) = Some s' ->
  (sch = [] /\ s' = call f0 e0)
  \/ exists extra sch', sch = Fork extra :: sch'.
Proof.
  destruct sch as [|[extra|i|] sch]; simpl.
  - intros [= <-]. now left.
  - intros _. right. eauto.
  - discriminate.
  - discriminate.
Qed.

Lemma accounts_nil (f0 : stream) : accounts io f0 f0 [].
Proof.
  split; simpl.
  - now rewrite TextFacts.app_empty_r.
  - now rewrite orb_false_r.
Qed.

Lemma accounts_snoc (f0 f : stream) (done : list nat) (i : nat) :
  accounts io f0 f done ->
  accounts io f0 (fst (printf (io i) f hello_fmt (omp_get_thread_num i)))
    (done ++ [i]).
Proof.
  intros [Hc He]. unfold accounts.
  rewrite map_app, TextFacts.cat_app, existsb_app. simpl.
  rewrite TextFacts.app_empty_r, orb_false_r.
  unfold printf, emitted, greeting.
  destruct (io i) as [|n]; simpl; rewrite Hc.
  - split; [now rewrite TextFacts.app_assoc | now rewrite He, orb_false_r].
  - split; [now rewrite TextFacts.app_assoc |].
    now rewrite !orb_true_r.
Qed.

Lemma fork_inv (extra : nat) (f0 : stream) (e0 : E) (s' : state E) :
  fork extra (call f0 e0) = Some s' -> inv io extra f0 e0 s'.
Proof.
  unfold fork, call. simpl. intros [= <-]. split; [reflexivity |]. simpl.
  split; [now rewrite length_replicate |].
  split.
  - intros i tid H.
    change (AtGetTid :: replicate extra AtGetTid) with (replicate (S extra) AtGetTid) in H.
    apply lookup_replicate in H as [[=] _].
  - exists []. split; [constructor |]. split; [| apply accounts_nil].
    intros i. split; [intros [] |].
    change (AtGetTid :: replicate extra AtGetTid) with (replicate (S extra) AtGetTid).
    intros H. apply lookup_replicate in H as [[=] _].
Qed.

Lemma thread_step_inv (extra : nat) (f0 : stream) (e0 : E) (i : nat) (s s' : state E) :
  inv io extra f0 e0 s -> thread_step io i s = Some s' ->
  inv io extra f0 e0 s' /\ ph s' <> Called.
Proof.
  destruct s as [p f e]. unfold inv, thread_step. simpl.
  destruct p as [|team|]; try discriminate.
  intros (He & Hlen & Htid & done & Hnd & Hdone & Hacc).
  destruct (team !! i) as [[|tid|]|] eqn:Hi; try discriminate.
  - (* int tid = omp_get_thread_num(); *)
    intros [= <-]. simpl. split; [| discriminate].
    split; [assumption |].
    split; [now rewrite length_insert |].
    split.
    + intros j tid. destruct (decide (i = j)) as [<-|Hne].
      * rewrite list_lookup_insert_eq by (apply lookup_lt_is_Some; eauto).
        now intros [= <-].
      * rewrite list_lookup_insert_ne by assumption. apply Htid.
    + exists done. split; [assumption |]. split; [| assumption].
      intros j. rewrite Hdone. destruct (decide (i = j)) as [<-|Hne].
      * rewrite list_lookup_insert_eq by (apply lookup_lt_is_Some; eauto).
        rewrite Hi. split; discriminate.
      * now rewrite list_lookup_insert_ne by assumption.
  - (* printf("[mylib] Hello from thread %d\n", tid); *)
    rewrite (Htid i tid Hi).
    pose proof (accounts_snoc f0 f done i Hacc) as Hacc'.
    destruct (printf (io i) f hello_fmt (omp_get_thread_num i)) as [f' r].
    intros [= <-]. simpl in *. split; [| discriminate].
    split; [assumption |].
    split; [now rewrite length_insert |].
    split.
    + intros j tid'. destruct (decide (i = j)) as [<-|Hne].
      * rewrite list_lookup_insert_eq by (apply lookup_lt_is_Some; eauto).
        discriminate.
      * rewrite list_lookup_insert_ne by assumption. apply Htid.
    + exists (done ++ [i]). split; [| split; [| assumption]].
      * apply NoDup_app. split; [assumption |]. split; [| apply NoDup_singleton].
        intros j Hj ->%list_elem_of_singleton.
        apply list_elem_of_In, Hdone in Hj. congruence.
      * intros j. rewrite in_app_iff, Hdone. simpl.
        destruct (decide (i = j)) as [<-|Hne].
        -- rewrite list_lookup_insert_eq by (apply lookup_lt_is_Some; eauto).
           tauto.
        -- rewrite list_lookup_insert_ne by assumption. tauto.
Qed.

Lemma all_at_end (team : list pc) :
  forallb at_end team = true <-> forall i, i < length team -> team !! i = Some AtEnd.
Proof.
  split.
  - intros H i Hi. apply lookup_lt_is_Some in Hi as [p Hp].
    rewrite forallb_forall in H.
    assert (Hin : In p team) by (apply list_elem_of_In, list_elem_of_lookup; eauto).
    apply H in Hin. destruct p; try discriminate. assumption.
  - intros H. apply forallb_forall. intros p Hp.
    apply list_elem_of_In, list_elem_of_lookup in Hp as [i Hi].
    rewrite H in Hi by (apply lookup_lt_is_Some; eauto).
    now injection Hi as <-.
Qed.

Lemma join_inv (extra : nat) (f0 : stream) (e0 : E) (s s' : state E) :
  inv io extra f0 e0 s -> join s = Some s' ->
  inv io extra f0 e0 s' /\ ph s' = Returned.
Proof.
  destruct s as [p f e]. unfold inv, join. simpl.
  destruct p as [|team|]; try discriminate.
  intros (He & Hlen & Htid & done & Hnd & Hdone & Hacc).
  destruct (forallb at_end team) eqn:Hall; try discriminate.
  intros [= <-]. simpl. split; [| reflexivity]. split; [assumption |].
  exists done. split; [| assumption].
  change (0 :: seq 1 extra) with (seq 0 (S extra)).
  apply NoDup_Permutation; [assumption | apply NoDup_seq |].
  intros i. rewrite list_elem_of_In, Hdone, elem_of_seq.
  rewrite all_at_end in Hall. split.
  - intros Hi. assert (i < length team) by (apply lookup_lt_is_Some; eauto). lia.
  - intros Hi. apply Hall. lia.
Qed.

Lemma step_inv (extra : nat) (f0 : stream) (e0 : E) (m : move) (s s' : state E) :
  ph s <> Called -> inv io extra f0 e0 s -> step io m s = Some s' ->
  inv io extra f0 e0 s' /\ ph s' <> Called.
Proof.
  intros Hph Hinv. destruct m as [extra'|i|]; simpl.
  - unfold fork. destruct (ph s); try discriminate. congruence.
  - apply thread_step_inv; assumption.
  - intros H. destruct (join_inv _ _ _ _ _ Hinv H) as [H1 H2].
    split; [assumption | congruence].
Qed.

Lemma exec_inv (extra : nat) (f0 : stream) (e0 : E) (sch : list move) (s s' : state E) :
  ph s <> Called -> inv io extra f0 e0 s -> exec io sch s = Some s' ->
  inv io extra f0 e0 s' /\ ph s' <> Called.
Proof.
  revert s. induction sch as [|m sch IH]; intros s Hph Hinv; simpl.
  - intros [= <-]. now split.
  - destruct (step io m s) as [s1|] eqn:Hstep; [| discriminate].
    destruct (step_inv _ _ _ _ _ _ Hph Hinv Hstep) as [Hinv1 Hph1].
    now apply IH.
Qed.

(** Every state that an execution of a call reaches after the fork satisfies
    the invariant. *)
Lemma call_inv (extra : nat) (f0 : stream) (e0 : E) (sch : list move) (s' : state E) :
  mylib_hello io extra sch f0 e0 = Some s' ->
  inv io extra f0 e0 s' /\ ph s' <> Called.
Proof.
  change (mylib_hello io extra sch f0 e0)
    with (match fork extra (call f0 e0) with
          | Some s1 => exec io sch s1
          | None => None
          end).
  destruct (fork extra (call f0 e0)) as [s1|] eqn:Hf; [| discriminate].
  intros H. eapply exec_inv; [| apply (fork_inv _ _ _ _ Hf) | exact H].
  unfold fork in Hf. simpl in Hf. injection Hf as <-. discriminate.
Qed.

(** ** Termination and absence of deadlock *)

Lemma steps_left_insert (team : list pc) (i : nat) (p q : pc) :
  team !! i = Some p ->
  sum_list (map steps_left (<[i := q]> team)) + steps_left p
  = sum_list (map steps_left team) + steps_left q.
Proof.
  revert i. induction team as [|x team IH]; intros [|i]; simpl; try discriminate.
  - intros [= ->]. lia.
  - intros H. specialize (IH i H). lia.
Qed.

Lemma steps_left_at_end (team : list pc) :
  forallb at_end team = true -> sum_list (map steps_left team) = 0.
Proof.
  induction team as [|p team IH]; simpl; [reflexivity |].
  destruct p; simpl; try discriminate. exact IH.
Qed.

Lemma step_remaining (m : move) (s s' : state E) :
  ph s <> Called -> step io m s = Some s' -> remaining s = S (remaining s').
Proof.
  destruct s as [p f e]. destruct m as [extra|i|]; simpl; intros Hp.
  - unfold fork. simpl. destruct p; congruence.
  - unfold thread_step, remaining. simpl.
    destruct p as [|team|]; try discriminate.
    destruct (team !! i) as [[|tid|]|] eqn:Hi; try discriminate.
    + intros [= <-]. simpl.
      pose proof (steps_left_insert team i _ (AtPrintf (omp_get_thread_num i)) Hi).
      simpl in *. lia.
    + destruct (printf (io i) f hello_fmt tid) as [f' r]. intros [= <-]. simpl.
      pose proof (steps_left_insert team i _ AtEnd Hi).
      simpl in *. lia.
  - unfold join, remaining. simpl.
    destruct p as [|team|]; try discriminate.
    destruct (forallb at_end team) eqn:Hall; try discriminate.
    intros [= <-]. simpl. now rewrite steps_left_at_end.
Qed.

Lemma step_not_called (m : move) (s s' : state E) :
  step io m s = Some s' -> ph s' <> Called.
Proof.
  destruct s as [p f e]. destruct m as [extra|i|]; simpl.
  - unfold fork. simpl. destruct p; try discriminate. now intros [= <-].
  - unfold thread_step. simpl. destruct p as [|team|]; try discriminate.
    destruct (team !! i) as [[|tid|]|]; try discriminate.
    + now intros [= <-].
    + destruct (printf (io i) f hello_fmt tid). now intros [= <-].
  - unfold join. simpl. destruct p as [|team|]; try discriminate.
    destruct (forallb at_end team); try discriminate. now intros [= <-].
Qed.

Lemma exec_remaining (sch : list move) (s s' : state E) :
  ph s <> Called -> exec io sch s = Some s' ->
  remaining s = length sch + remaining s'.
Proof.
  revert s. induction sch as [|m sch IH]; intros s Hp; simpl.
  - now intros [= <-].
  - destruct (step io m s) as [s1|] eqn:Hs; [| discriminate].
    intros H. rewrite (step_remaining _ _ _ Hp Hs).
    rewrite (IH s1 (step_not_called _ _ _ Hs) H). reflexivity.
Qed.

(** Once returned, nothing moves any more. *)
Lemma returned_stuck (m : move) (s : state E) :
  ph s = Returned -> step io m s = None.
Proof.
  destruct s as [p f e]. simpl. intros ->.
  destruct m; reflexivity.
Qed.

Lemma returned_final (sch : list move) (s s' : state E) :
  ph s = Returned -> exec io sch s = Some s' -> sch = [] /\ s' = s.
Proof.
  intros Hp. destruct sch as [|m sch]; simpl.
  - intros [= <-]. now split.
  - now rewrite (returned_stuck m s Hp).
Qed.

(** Inside the region some move is always enabled: a thread that has not
    reached the barrier can run, whatever the stream does with its write, and
    when all have reached it the barrier opens. *)
Lemma progress (s : state E) (team : list pc) :
  ph s = InRegion team ->
  exists m s', step io m s = Some s'.
Proof.
  destruct s as [p f e]. simpl. intros ->.
  destruct (forallb at_end team) eqn:Hall.
  - exists Join. unfold step, join. simpl. rewrite Hall. eauto.
  - assert (exists i q, team !! i = Some q /\ at_end q = false) as (i & q & Hi & Hq).
    { clear -Hall. induction team as [|x team IH]; simpl in *; [discriminate |].
      destruct (at_end x) eqn:Hx.
      - destruct (IH Hall) as (i & q & Hi & Hq). exists (S i), q. now split.
      - exists 0, x. now split. }
    exists (Run i). unfold step, thread_step. simpl. rewrite Hi.
    destruct q as [|tid|]; try discriminate; [eauto |].
    destruct (printf (io i) f hello_fmt tid). eauto.
Qed.

Lemma remaining_returned (s : state E) :
  ph s <> Called -> remaining s = 0 -> ph s = Returned.
Proof.
  destruct s as [[|team|] f e]; unfold remaining; simpl; congruence.
Qed.

(** Every state inside the region can be run to the return. *)
Lemma can_finish (s : state E) :
  ph s <> Called ->
  exists sch s', exec io sch s = Some s' /\ ph s' = Returned.
Proof.
  remember (remaining s) as n eqn:Hn. revert s Hn.
  induction n as [|n IH]; intros s Hn Hp.
  - exists [], s. split; [reflexivity |]. now apply remaining_returned.
  - destruct (ph s) as [|team|] eqn:Hph; [congruence | |].
    + destruct (progress s team Hph) as (m & s1 & Hs).
      assert (Hp1 := step_not_called _ _ _ Hs).
      assert (Hr : remaining s = S (remaining s1))
        by (apply (step_remaining m); [congruence | assumption]).
      destruct (IH s1 ltac:(lia) Hp1) as (sch & s' & Hex & Hret).
      exists (m :: sch), s'. simpl. rewrite Hs. now split.
    + exists [], s. now split.
Qed.

Lemma remaining_fork (extra : nat) (f0 : stream) (e0 : E) (s1 : state E) :
  fork extra (call f0 e0) = Some s1 -> remaining s1 = S (2 * S extra).
Proof.
  unfold fork, call. simpl. intros [= <-]. unfold remaining. simpl.
  f_equal. f_equal.
  assert (H : forall k, sum_list (map steps_left (replicate k AtGetTid)) = 2 * k).
  { induction k as [|k IHk]; simpl; [reflexivity | rewrite IHk; lia]. }
  rewrite H. lia.
Qed.

(** Length of the executions of a call: at most [2 * workers + 2] moves, and
    exactly that many when the call has returned. *)
Lemma call_length (extra : nat) (f0 : stream) (e0 : E) (sch : list move) (s' : state E) :
  mylib_hello io extra sch f0 e0 = Some s' ->
  length sch + remaining s' = S (2 * S extra).
Proof.
  change (mylib_hello io extra sch f0 e0)
    with (match fork extra (call f0 e0) with
          | Some s1 => exec io sch s1
          | None => None
          end).
  destruct (fork extra (call f0 e0)) as [s1|] eqn:Hf; [| discriminate].
  intros H. rewrite <- (remaining_fork _ _ _ _ Hf).
  symmetry. apply exec_remaining; [| assumption].
  unfold fork in Hf. simpl in Hf. injection Hf as <-. discriminate.
Qed.

(** A call can always be run to its return. *)
Lemma call_returns (extra : nat) (f0 : stream) (e0 : E) :
  exists (sch : list move) (s' : state E),
    mylib_hello io extra sch f0 e0 = Some s' /\ ph s' = Returned.
Proof.
  destruct (can_finish (State (InRegion (AtGetTid :: replicate extra AtGetTid)) f0 e0))
    as (sch & s' & Hex & Hret); [discriminate |].
  exists sch, s'. split; [exact Hex | exact Hret].
Qed.

End Executions.
End HelloFacts.

(** * What a call prints *)

Module OutputFacts.
Import Text Stdio Omp Hello HelloFacts.

Lemma format_hello (z : Z) :
  format hello_fmt z = (line_of z ++ String nl EmptyString)%string.
Proof. reflexivity. Qed.

Lemma greeting_line (i : nat) :
  greeting i = (line_of (omp_get_thread_num i) ++ String nl EmptyString)%string.
Proof. apply format_hello. Qed.

Lemma line_of_no_nl (z : Z) : count_nl (line_of z) = O.
Proof.
  unfold line_of. rewrite TextFacts.count_nl_app, StdioFacts.decimal_no_nl.
  reflexivity.
Qed.

Lemma line_of_not_empty (z : Z) : line_of z <> EmptyString.
Proof. discriminate. Qed.

Lemma line_index_line_of (z : Z) : line_index (line_of z) = Some z.
Proof.
  unfold line_index, line_of.
  rewrite TextFacts.strip_prefix_app. apply StdioFacts.read_decimal_decimal.
Qed.

Lemma emitted_healthy (i : nat) : emitted healthy i = greeting i.
Proof. reflexivity. Qed.

(** The thread number of a member of a team that fits in an [int]. *)
Lemma thread_num_small (i : nat) :
  Z.of_nat i <= CInt.INT_MAX -> omp_get_thread_num i = Z.of_nat i.
Proof.
  intros H. unfold omp_get_thread_num. apply StdioFacts.wrap_in_range.
  unfold CInt.INT_MIN. lia.
Qed.

Lemma thread_num_zero : omp_get_thread_num 0 = 0.
Proof. reflexivity. Qed.

(** The text of the greetings of the threads [done], as lines. *)
Lemma greetings_lines (done : list nat) :
  cat (map (emitted healthy) done)
  = cat (map (fun l => (l ++ String nl EmptyString)%string)
           (map (fun i => line_of (omp_get_thread_num i)) done)).
Proof.
  induction done as [|i done IH]; cbn [map cat]; [reflexivity |].
  now rewrite IH, emitted_healthy, greeting_line.
Qed.

Lemma lines_no_nl (done : list nat) :
  Forall (fun l => count_nl l = O)
    (map (fun i => line_of (omp_get_thread_num i)) done).
Proof.
  apply Forall_forall. intros l Hl.
  apply list_elem_of_In, in_map_iff in Hl as (i & <- & _). apply line_of_no_nl.
Qed.

Lemma indices_of_lines (done : list nat) :
  omap line_index (map (fun i => line_of (omp_get_thread_num i)) done)
  = map omp_get_thread_num done.
Proof.
  induction done as [|i done IH]; cbn [map omap list_omap]; [reflexivity |].
  now rewrite line_index_line_of, IH.
Qed.

Lemma existsb_Permutation {A : Type} (f : A -> bool) (l l' : list A) :
  Permutation l l' -> existsb f l = existsb f l'.
Proof.
  induction 1 as [| x l l' _ IH | x y l | l l' l'' _ IH1 _ IH2]; simpl.
  - reflexivity.
  - now rewrite IH.
  - destruct (f x), (f y); reflexivity.
  - congruence.
Qed.

Section Returned.
Context {E : Type}.

(** Any state of a call, on any stream: the threads that have run their
    [printf], in the order [done] in which they did, are distinct members of
    the team, and the stream holds what these calls let through. *)
Lemma reached_accounts (io : nat -> outcome) (extra : nat) (sch : list move)
    (f0 : stream) (e0 : E) (s : state E) :
  mylib_hello io extra sch f0 e0 = Some s ->
  exists done,
    List.NoDup done
    /\ (forall i, In i done -> (i < S extra)%nat)
    /\ accounts io f0 (stdout s) done
    /\ (ph s = Returned -> Permutation done (seq 0 (S extra))).
Proof.
  intros Hex. destruct (call_inv io _ _ _ _ _ Hex) as [[_ Hinv] Hnc].
  destruct (ph s) as [|team|]; [congruence | |].
  - destruct Hinv as (Hlen & _ & done & Hnd & Hdone & Hacc).
    exists done. split; [now apply NoDup_ListNoDup |].
    split; [| split; [exact Hacc | discriminate]].
    intros i Hi. apply Hdone in Hi. rewrite <- Hlen.
    apply lookup_lt_is_Some. eauto.
  - destruct Hinv as (done & Hperm & Hacc).
    exists done. split.
    { apply (Permutation.Permutation_NoDup (Permutation_sym Hperm)), seq_NoDup. }
    split; [| split; [exact Hacc | intros _; exact Hperm]].
    intros i Hi. apply (Permutation_in _ Hperm), in_seq in Hi. lia.
Qed.

(** A call that has returned, on any stream: every thread of the team has
    run its [printf] exactly once. *)
Lemma returned_accounts (io : nat -> outcome) (extra : nat) (sch : list move)
    (f0 : stream) (e0 : E) (s' : state E) :
  mylib_hello io extra sch f0 e0 = Some s' ->
  ph s' = Returned ->
  exists done, Permutation done (seq 0 (S extra))
               /\ accounts io f0 (stdout s') done
               /\ ext s' = e0.
Proof.
  intros Hex Hret. destruct (call_inv io _ _ _ _ _ Hex) as [[He Hinv] _].
  rewrite Hret in Hinv. destruct Hinv as (done & Hperm & Hacc).
  exists done. auto.
Qed.

(** On a healthy stream, in terms of lines: what a call has printed so far is
    the lines of the threads that have run their [printf], each with its
    newline. *)
Lemma reached_lines (extra : nat) (sch : list move)
    (f0 : stream) (e0 : E) (s : state E) :
  mylib_hello healthy extra sch f0 e0 = Some s ->
  exists done,
    List.NoDup done
    /\ (forall i, In i done -> (i < S extra)%nat)
    /\ (ph s = Returned -> Permutation done (seq 0 (S extra)))
    /\ printed f0 s
       = cat (map (fun l => (l ++ String nl EmptyString)%string)
                (map (fun i => line_of (omp_get_thread_num i)) done))
    /\ complete_lines (printed f0 s)
       = map (fun i => line_of (omp_get_thread_num i)) done
    /\ pending (printed f0 s) = EmptyString.
Proof.
  intros Hex.
  destruct (reached_accounts healthy _ _ _ _ _ Hex)
    as (done & Hnd & Hlt & [Hc _] & Hperm).
  exists done. split; [assumption |]. split; [assumption |]. split; [assumption |].
  assert (Hp : printed f0 s
               = cat (map (fun l => (l ++ String nl EmptyString)%string)
                        (map (fun i => line_of (omp_get_thread_num i)) done))).
  { unfold printed. rewrite Hc, TextFacts.drop_app. apply greetings_lines. }
  rewrite Hp. split; [reflexivity |].
  split.
  - apply TextFacts.complete_lines_cat, lines_no_nl.
  - apply TextFacts.pending_cat, lines_no_nl.
Qed.

Lemma returned_lines (extra : nat) (sch : list move)
    (f0 : stream) (e0 : E) (s' : state E) :
  mylib_hello healthy extra sch f0 e0 = Some s' ->
  ph s' = Returned ->
  exists done,
    Permutation done (seq 0 (S extra))
    /\ printed f0 s'
       = cat (map (fun l => (l ++ String nl EmptyString)%string)
                (map (fun i => line_of (omp_get_thread_num i)) done))
    /\ complete_lines (printed f0 s')
       = map (fun i => line_of (omp_get_thread_num i)) done
    /\ pending (printed f0 s') = EmptyString.
Proof.
  intros Hex Hret.
  destruct (reached_lines _ _ _ _ _ Hex) as (done & _ & _ & Hperm & H).
  exists done. split; [exact (Hperm Hret) | exact H].
Qed.

End Returned.
End OutputFacts.

(** * Sorting indices *)

Module SortFacts.
Import Hello.

Lemma insert_asc_comm (x y : Z) (l : list Z) :
  insert_asc x (insert_asc y l) = insert_asc y (insert_asc x l).
Proof.
  induction l as [|z l IH]; simpl.
  - destruct (Z.leb_spec x y), (Z.leb_spec y x); try reflexivity; try lia.
    now replace y with x by lia.
  - destruct (Z.leb_spec x z), (Z.leb_spec y z); simpl;
      repeat match goal with
             | |- context [?a <=? ?b] => destruct (Z.leb_spec a b)
             end;
      try reflexivity; try lia.
    + now replace y with x by lia.
    + now rewrite IH.
Qed.

(** The ascending sort does not depend on the order of its input. *)
Lemma sort_asc_Permutation (l l' : list Z) :
  Permutation l l' -> sort_asc l = sort_asc l'.
Proof.
  induction 1 as [| x l l' _ IH | x y l | l l' l'' _ IH1 _ IH2]; simpl.
  - reflexivity.
  - now rewrite IH.
  - apply insert_asc_comm.
  - congruence.
Qed.

End SortFacts.

(** * The properties of the specification *)

Import Text Stdio Omp Hello.

Lemma thread_nums_small (extra : nat) (done : list nat) :
  Z.of_nat (workerCount extra) <= CInt.INT_MAX ->
  Permutation done (seq 0 (workerCount extra)) ->
  map omp_get_thread_num done = map Z.of_nat done.
Proof.
  intros Hmax Hperm. apply map_ext_in. intros i Hi.
  apply OutputFacts.thread_num_small.
  apply (Permutation_in _ Hperm), in_seq in Hi.
  unfold workerCount in *. lia.
Qed.

(** C1. With a team of [workerCount] threads, a call runs to its return, and
    the indices printed by a call that has returned are exactly 0, 1, ...,
    [workerCount - 1], each once (they are a duplicate-free permutation of that
    range), every printed line carries an index, and the number of lines is
    [workerCount]. *)
Theorem hello_prints_every_index_once {E : Type} (extra : nat)
    (f0 : stream) (e0 : E) :
  Z.of_nat (workerCount extra) <= CInt.INT_MAX ->
  (exists (sch : list move) (s' : state E),
      mylib_hello healthy extra sch f0 e0 = Some s' /\ ph s' = Returned)
  /\ forall (sch : list move) (s' : state E),
       mylib_hello healthy extra sch f0 e0 = Some s' ->
       ph s' = Returned ->
       Permutation (printed_indices (printed f0 s'))
         (map Z.of_nat (seq 0 (workerCount extra)))
       /\ List.NoDup (printed_indices (printed f0 s'))
       /\ length (printed_indices (printed f0 s'))
          = length (complete_lines (printed f0 s'))
       /\ length (complete_lines (printed f0 s')) = workerCount extra
       /\ pending (printed f0 s') = EmptyString.
Proof.
  intros Hmax. split; [apply HelloFacts.call_returns |].
  intros sch s' Hrun Hret.
  destruct (OutputFacts.returned_lines _ _ _ _ _ Hrun Hret)
    as (done & Hperm & _ & Hlines & Hpend).
  unfold printed_indices. rewrite Hlines, OutputFacts.indices_of_lines.
  rewrite (thread_nums_small extra done Hmax Hperm).
  assert (Hp : Permutation (map Z.of_nat done)
                 (map Z.of_nat (seq 0 (workerCount extra))))
    by now apply Permutation_map.
  split; [exact Hp |].
  split.
  { apply (Permutation.Permutation_NoDup (Permutation_sym Hp)).
    apply Finite.Injective_map_NoDup; [| apply seq_NoDup].
    intros a b Hab. lia. }
  split; [now rewrite !length_map |].
  split; [| exact Hpend].
  rewrite length_map, (Permutation_length Hperm). apply length_seq.
Qed.

Lemma hello_prints_every_index_once_witness :
  Z.of_nat (workerCount 1) <= CInt.INT_MAX
  /\ mylib_hello healthy 1 Demo.duo Demo.used tt
     = Some (Demo.final healthy 1 Demo.duo Demo.used)
  /\ ph (Demo.final healthy 1 Demo.duo Demo.used) = Returned
  /\ Permutation
       (printed_indices
          (printed Demo.used (Demo.final healthy 1 Demo.duo Demo.used)))
       [0; 1].
Proof.
  assert (H1 : Z.of_nat (workerCount 1) <= CInt.INT_MAX) by (vm_compute; discriminate).
  assert (H2 : mylib_hello healthy 1 Demo.duo Demo.used tt
               = Some (Demo.final healthy 1 Demo.duo Demo.used)) by reflexivity.
  assert (H3 : ph (Demo.final healthy 1 Demo.duo Demo.used) = Returned) by reflexivity.
  split; [exact H1 |]. split; [exact H2 |]. split; [exact H3 |].
  exact (proj1 (proj2 (hello_prints_every_index_once 1 Demo.used tt H1)
                  Demo.duo _ H2 H3)).
Defined.

(** C2. At any moment of a call, and so when it has returned, every line
    it has printed has the form [[mylib] Hello from thread <N>], where <N> is
    the decimal rendering of an integer with 0 <= N < [workerCount]; nothing
    else has been printed. *)
Theorem hello_lines_match_pattern {E : Type} (extra : nat) (sch : list move)
    (f0 : stream) (e0 : E) (s : state E) :
  Z.of_nat (workerCount extra) <= CInt.INT_MAX ->
  mylib_hello healthy extra sch f0 e0 = Some s ->
  Forall (fun l => exists n : Z,
              0 <= n < Z.of_nat (workerCount extra)
              /\ l = ("[mylib] Hello from thread " ++ decimal n)%string)
    (complete_lines (printed f0 s))
  /\ pending (printed f0 s) = EmptyString.
Proof.
  intros Hmax Hrun.
  destruct (OutputFacts.reached_lines _ _ _ _ _ Hrun)
    as (done & _ & Hlt & _ & _ & Hlines & Hpend).
  split; [| exact Hpend].
  rewrite Hlines. apply List.Forall_forall. intros l Hl.
  apply in_map_iff in Hl as (i & <- & Hi). apply Hlt in Hi.
  exists (Z.of_nat i). unfold workerCount in *.
  rewrite OutputFacts.thread_num_small by lia.
  split; [lia | reflexivity].
Qed.

Lemma hello_lines_match_pattern_witness :
  Z.of_nat (workerCount 3) <= CInt.INT_MAX
  /\ mylib_hello healthy 3 Demo.quartet Demo.fresh tt
     = Some (Demo.final healthy 3 Demo.quartet Demo.fresh)
  /\ Forall (fun l => exists n : Z,
                 0 <= n < Z.of_nat (workerCount 3)
                 /\ l = ("[mylib] Hello from thread " ++ decimal n)%string)
       (complete_lines
          (printed Demo.fresh
             (Demo.final healthy 3 Demo.quartet Demo.fresh))).
Proof.
  assert (H1 : Z.of_nat (workerCount 3) <= CInt.INT_MAX) by (vm_compute; discriminate).
  assert (H2 : mylib_hello healthy 3 Demo.quartet Demo.fresh tt
               = Some (Demo.final healthy 3 Demo.quartet Demo.fresh)) by reflexivity.
  split; [exact H1 |]. split; [exact H2 |].
  exact (proj1 (hello_lines_match_pattern 3 Demo.quartet Demo.fresh tt _ H1 H2)).
Defined.

(** The last move of an execution that reaches the return is the release of
    the barrier, in a state where the whole team waits at it. *)
Lemma returned_by_join {E : Type} (io : nat -> outcome) (sch : list move)
    (s s' : state E) :
  ph s <> Returned ->
  exec io sch s = Some s' ->
  ph s' = Returned ->
  exists pre mid team,
    sch = pre ++ [Join]
    /\ exec io pre s = Some mid
    /\ ph mid = InRegion team
    /\ forallb at_end team = true
    /\ stdout mid = stdout s'.
Proof.
  intros Hs Hex Hret.
  destruct sch as [|m0 sch0] using rev_ind.
  - simpl in Hex. injection Hex as <-. contradiction.
  - clear IHsch0. rename sch0 into pre, m0 into m.
    rewrite HelloFacts.exec_app in Hex.
    destruct (exec io pre s) as [mid|] eqn:Hpre; [| discriminate].
    simpl in Hex. destruct (step io m mid) as [s1|] eqn:Hstep; [| discriminate].
    injection Hex as ->.
    destruct mid as [p f e]. destruct m as [extra|i|]; simpl in Hstep.
    + unfold fork in Hstep. simpl in Hstep. destruct p; try discriminate.
      injection Hstep as <-. discriminate.
    + unfold thread_step in Hstep. simpl in Hstep.
      destruct p as [|team|]; try discriminate.
      destruct (team !! i) as [[|tid|]|]; try discriminate.
      * injection Hstep as <-. discriminate.
      * destruct (printf (io i) f hello_fmt tid). injection Hstep as <-. discriminate.
    + unfold join in Hstep. simpl in Hstep.
      destruct p as [|team|]; try discriminate.
      destruct (forallb at_end team) eqn:Hall; try discriminate.
      injection Hstep as <-.
      exists pre, (State (InRegion team) f e), team. auto.
Qed.

(** C3. A call returns only through the barrier that ends the region: the
    move that returns is the last one, it happens in a state where every
    member of the team has run its [printf] and waits at the barrier, all
    [workerCount] lines are on standard output by then, and once the call has
    returned no move is possible, so nothing is printed afterwards. *)
Theorem hello_returns_after_all_lines {E : Type} (extra : nat) (sch : list move)
    (f0 : stream) (e0 : E) (s' : state E) :
  mylib_hello healthy extra sch f0 e0 = Some s' ->
  ph s' = Returned ->
  (exists pre mid team,
      sch = pre ++ [Join]
      /\ mylib_hello healthy extra pre f0 e0 = Some mid
      /\ ph mid = InRegion team
      /\ length team = workerCount extra
      /\ Forall (fun p => p = AtEnd) team
      /\ stdout mid = stdout s'
      /\ length (complete_lines (printed f0 mid)) = workerCount extra)
  /\ (forall m, step healthy m s' = None)
  /\ (forall sch' s'', exec healthy sch' s' = Some s'' -> sch' = [] /\ s'' = s').
Proof.
  intros Hrun Hret. split; [| split].
  - destruct (returned_by_join healthy (Fork extra :: sch) (call f0 e0) s')
      as (pre0 & mid & team & Hsch & Hpre & Hmid & Hall & Hout);
      [discriminate | exact Hrun | exact Hret |].
    destruct pre0 as [|m pre].
    { simpl in Hsch. discriminate. }
    simpl in Hsch. injection Hsch as <- ->.
    exists pre, mid, team. split; [reflexivity |]. split; [exact Hpre |].
    split; [exact Hmid |].
    destruct (HelloFacts.call_inv healthy _ _ _ _ _ Hpre) as [[_ Hinv] _].
    rewrite Hmid in Hinv. destruct Hinv as (Hlen & _).
    split; [exact Hlen |].
    split.
    { apply List.Forall_forall. intros p Hp.
      rewrite forallb_forall in Hall. specialize (Hall p Hp).
      destruct p; try discriminate. reflexivity. }
    split; [exact Hout |].
    destruct (OutputFacts.returned_lines _ _ _ _ _ Hrun Hret)
      as (done & Hperm & _ & Hlines & _).
    unfold printed in *. rewrite Hout, Hlines.
    rewrite length_map, (Permutation_length Hperm). apply length_seq.
  - intros m. now apply HelloFacts.returned_stuck.
  - intros sch' s''. now apply HelloFacts.returned_final.
Qed.

Lemma hello_returns_after_all_lines_witness :
  mylib_hello healthy 1 Demo.duo Demo.fresh tt
  = Some (Demo.final healthy 1 Demo.duo Demo.fresh)
  /\ ph (Demo.final healthy 1 Demo.duo Demo.fresh) = Returned
  /\ (forall m, step healthy m (Demo.final healthy 1 Demo.duo Demo.fresh) = None).
Proof.
  assert (H1 : mylib_hello healthy 1 Demo.duo Demo.fresh tt
               = Some (Demo.final healthy 1 Demo.duo Demo.fresh)) by reflexivity.
  assert (H2 : ph (Demo.final healthy 1 Demo.duo Demo.fresh) = Returned) by reflexivity.
  split; [exact H1 |]. split; [exact H2 |].
  exact (proj1 (proj2 (hello_returns_after_all_lines 1 Demo.duo Demo.fresh tt _ H1 H2))).
Defined.

(** C4. With exactly one worker, a call runs to its return, and a call that
    has returned has printed exactly one line, which is
    [[mylib] Hello from thread 0]. *)
Theorem hello_one_worker {E : Type} (extra : nat) (f0 : stream) (e0 : E) :
  workerCount extra = 1%nat ->
  (exists (sch : list move) (s' : state E),
      mylib_hello healthy extra sch f0 e0 = Some s' /\ ph s' = Returned)
  /\ forall (sch : list move) (s' : state E),
       mylib_hello healthy extra sch f0 e0 = Some s' ->
       ph s' = Returned ->
       printed f0 s'
       = ("[mylib] Hello from thread 0" ++ String nl EmptyString)%string
       /\ complete_lines (printed f0 s')
          = ["[mylib] Hello from thread 0"%string]
       /\ pending (printed f0 s') = EmptyString.
Proof.
  intros Hone. injection Hone as ->. split; [apply HelloFacts.call_returns |].
  intros sch s' Hrun Hret.
  destruct (OutputFacts.returned_lines _ _ _ _ _ Hrun Hret)
    as (done & Hperm & Htext & Hlines & Hpend).
  apply Permutation_sym, Permutation_length_1_inv in Hperm. subst done.
  split; [exact Htext |]. split; [exact Hlines | exact Hpend].
Qed.

Lemma hello_one_worker_witness :
  workerCount 0 = 1%nat
  /\ mylib_hello healthy 0 Demo.solo Demo.used tt
     = Some (Demo.final healthy 0 Demo.solo Demo.used)
  /\ ph (Demo.final healthy 0 Demo.solo Demo.used) = Returned
  /\ complete_lines
       (printed Demo.used (Demo.final healthy 0 Demo.solo Demo.used))
     = ["[mylib] Hello from thread 0"%string].
Proof.
  assert (H1 : workerCount 0 = 1%nat) by reflexivity.
  assert (H2 : mylib_hello healthy 0 Demo.solo Demo.used tt
               = Some (Demo.final healthy 0 Demo.solo Demo.used)) by reflexivity.
  assert (H3 : ph (Demo.final healthy 0 Demo.solo Demo.used) = Returned) by reflexivity.
  split; [exact H1 |]. split; [exact H2 |]. split; [exact H3 |].
  exact (proj1 (proj2 (proj2 (hello_one_worker 0 Demo.used tt H1) Demo.solo _ H2 H3))).
Defined.

(** C5. With exactly four workers, a call that has returned has printed
    exactly four lines, and their indices, sorted in ascending order, are
    0, 1, 2, 3.  The order of the lines is not fixed: two schedules of the same
    call print them in different orders. *)
Theorem hello_four_workers {E : Type} (extra : nat) (f0 : stream) (e0 : E) :
  workerCount extra = 4%nat ->
  (forall (sch : list move) (s' : state E),
      mylib_hello healthy extra sch f0 e0 = Some s' ->
      ph s' = Returned ->
      length (complete_lines (printed f0 s')) = 4%nat
      /\ sort_asc (printed_indices (printed f0 s')) = [0; 1; 2; 3])
  /\ (exists (sch1 sch2 : list move) (s1 s2 : state E),
         mylib_hello healthy extra sch1 f0 e0 = Some s1 /\ ph s1 = Returned
         /\ mylib_hello healthy extra sch2 f0 e0 = Some s2 /\ ph s2 = Returned
         /\ complete_lines (printed f0 s1)
            <> complete_lines (printed f0 s2)).
Proof.
  intros Hfour. injection Hfour as ->. split.
  - intros sch s' Hrun Hret.
    destruct (OutputFacts.returned_lines _ _ _ _ _ Hrun Hret)
      as (done & Hperm & _ & Hlines & _).
    unfold printed_indices. rewrite Hlines, OutputFacts.indices_of_lines.
    split.
    + rewrite length_map, (Permutation_length Hperm). reflexivity.
    + rewrite (thread_nums_small 3 done); [| vm_compute; discriminate | exact Hperm].
      rewrite (SortFacts.sort_asc_Permutation _ _
                 (Permutation_map Z.of_nat Hperm)).
      reflexivity.
  - destruct (mylib_hello healthy 3 (tl (in_turn 3)) f0 e0) as [s1|] eqn:H1;
      [| discriminate H1].
    destruct (mylib_hello healthy 3 Demo.quartet f0 e0) as [s2|] eqn:H2;
      [| discriminate H2].
    exists (tl (in_turn 3)), Demo.quartet, s1, s2.
    assert (R1 : ph s1 = Returned) by (injection H1 as <-; reflexivity).
    assert (R2 : ph s2 = Returned) by (injection H2 as <-; reflexivity).
    split; [exact H1 |]. split; [exact R1 |].
    split; [exact H2 |]. split; [exact R2 |].
    injection H1 as <-. injection H2 as <-.
    unfold printed. cbn [stdout content call].
    rewrite <- !TextFacts.app_assoc, !TextFacts.drop_app.
    discriminate.
Qed.

Lemma hello_four_workers_witness :
  workerCount 3 = 4%nat
  /\ mylib_hello healthy 3 Demo.quartet Demo.used tt
     = Some (Demo.final healthy 3 Demo.quartet Demo.used)
  /\ ph (Demo.final healthy 3 Demo.quartet Demo.used) = Returned
  /\ sort_asc
       (printed_indices
          (printed Demo.used
             (Demo.final healthy 3 Demo.quartet Demo.used)))
     = [0; 1; 2; 3].
Proof.
  assert (H1 : workerCount 3 = 4%nat) by reflexivity.
  assert (H2 : mylib_hello healthy 3 Demo.quartet Demo.used tt
               = Some (Demo.final healthy 3 Demo.quartet Demo.used)) by reflexivity.
  assert (H3 : ph (Demo.final healthy 3 Demo.quartet Demo.used) = Returned)
    by reflexivity.
  split; [exact H1 |]. split; [exact H2 |]. split; [exact H3 |].
  exact (proj2 (proj1 (hello_four_workers 3 Demo.used tt H1) Demo.quartet _ H2 H3)).
Defined.

(** C6. The function takes no input and returns no value, and what a call
    prints does not depend on what happened before: two calls with the same
    number of workers, made in any two processes (any earlier output, any
    surroundings, any schedules), print the same lines up to their order. *)
Theorem hello_calls_independent {E1 E2 : Type} (extra : nat)
    (sch1 sch2 : list move) (f1 f2 : stream) (e1 : E1) (e2 : E2)
    (s1 : state E1) (s2 : state E2) :
  mylib_hello healthy extra sch1 f1 e1 = Some s1 ->
  ph s1 = Returned ->
  mylib_hello healthy extra sch2 f2 e2 = Some s2 ->
  ph s2 = Returned ->
  Permutation (complete_lines (printed f1 s1))
    (complete_lines (printed f2 s2)).
Proof.
  intros Hrun1 Hret1 Hrun2 Hret2.
  destruct (OutputFacts.returned_lines _ _ _ _ _ Hrun1 Hret1)
    as (done1 & Hperm1 & _ & Hlines1 & _).
  destruct (OutputFacts.returned_lines _ _ _ _ _ Hrun2 Hret2)
    as (done2 & Hperm2 & _ & Hlines2 & _).
  rewrite Hlines1, Hlines2. apply Permutation_map.
  now rewrite Hperm1, Hperm2.
Qed.

(** A second call, made after a first one has returned and on the standard
    output that the first one left. *)
Lemma hello_calls_independent_witness :
  mylib_hello healthy 1 Demo.duo Demo.fresh tt
  = Some (Demo.final healthy 1 Demo.duo Demo.fresh)
  /\ ph (Demo.final healthy 1 Demo.duo Demo.fresh) = Returned
  /\ mylib_hello healthy 1 (tl (in_turn 1)) (stdout (Demo.final healthy 1 Demo.duo Demo.fresh)) tt
     = Some (Demo.final healthy 1 (tl (in_turn 1))
               (stdout (Demo.final healthy 1 Demo.duo Demo.fresh)))
  /\ ph (Demo.final healthy 1 (tl (in_turn 1))
           (stdout (Demo.final healthy 1 Demo.duo Demo.fresh))) = Returned
  /\ Permutation
       (complete_lines
          (printed Demo.fresh (Demo.final healthy 1 Demo.duo Demo.fresh)))
       (complete_lines
          (printed (stdout (Demo.final healthy 1 Demo.duo Demo.fresh))
             (Demo.final healthy 1 (tl (in_turn 1))
                (stdout (Demo.final healthy 1 Demo.duo Demo.fresh))))).
Proof.
  assert (H1 : mylib_hello healthy 1 Demo.duo Demo.fresh tt
               = Some (Demo.final healthy 1 Demo.duo Demo.fresh)) by reflexivity.
  assert (H2 : ph (Demo.final healthy 1 Demo.duo Demo.fresh) = Returned) by reflexivity.
  assert (H3 : mylib_hello healthy 1 (tl (in_turn 1)) (stdout (Demo.final healthy 1 Demo.duo Demo.fresh)) tt
               = Some (Demo.final healthy 1 (tl (in_turn 1))
                         (stdout (Demo.final healthy 1 Demo.duo Demo.fresh))))
    by reflexivity.
  assert (H4 : ph (Demo.final healthy 1 (tl (in_turn 1))
                     (stdout (Demo.final healthy 1 Demo.duo Demo.fresh))) = Returned)
    by reflexivity.
  split; [exact H1 |]. split; [exact H2 |]. split; [exact H3 |]. split; [exact H4 |].
  exact (hello_calls_independent 1 _ _ _ _ tt tt _ _ H1 H2 H3 H4).
Defined.

(** C7. The call is total and has no error result, whatever team the runtime
    creates and whatever the output stream does with the writes (each one
    taken, or failed): it can always run to its return, its executions are
    bounded, it is never stuck before it has returned, and returning carries no
    value.  A failure of [printf] is not handled: every thread still calls
    [printf] exactly once, nothing is written besides what these calls let
    through, and the error indicator of the stream is left as they set it. *)
Theorem hello_total_failures_untouched {E : Type} (io : nat -> outcome)
    (extra : nat) (f0 : stream) (e0 : E) :
  (exists (sch : list move) (s' : state E),
      mylib_hello io extra sch f0 e0 = Some s' /\ ph s' = Returned)
  /\ forall (sch : list move) (s : state E),
       mylib_hello io extra sch f0 e0 = Some s ->
       (length sch <= 2 * workerCount extra + 1)%nat
       /\ (exists (sch' : list move) (s' : state E),
              exec io sch' s = Some s' /\ ph s' = Returned)
       /\ ((forall m, step io m s = None) -> ph s = Returned)
       /\ (ph s = Returned ->
           (exists done : list nat,
               Permutation done (seq 0 (workerCount extra))
               /\ content (stdout s)
                  = (content f0 ++ cat (map (emitted io) done))%string)
           /\ error (stdout s)
              = (error f0
                 || existsb (fun i => failed (io i)) (seq 0 (workerCount extra)))%bool).
Proof.
  assert (Hall : forall (sch : list move) (s : state E),
             mylib_hello io extra sch f0 e0 = Some s ->
             exists (sch' : list move) (s' : state E),
               exec io sch' s = Some s' /\ ph s' = Returned).
  { intros sch s Hex. apply HelloFacts.can_finish.
    apply (HelloFacts.call_inv io _ _ _ _ _ Hex). }
  split.
  - destruct (Hall [] _ eq_refl) as (sch & s' & Hex & Hret).
    exists sch, s'. split; [exact Hex | exact Hret].
  - intros sch s Hex. split; [| split; [| split]].
    + pose proof (HelloFacts.call_length io _ _ _ _ _ Hex). unfold workerCount. lia.
    + exact (Hall sch s Hex).
    + intros Hstuck.
      destruct (HelloFacts.call_inv io _ _ _ _ _ Hex) as [_ Hnc].
      destruct (ph s) as [|team|] eqn:Hph; [congruence | | reflexivity].
      destruct (HelloFacts.progress io s team Hph) as (m & s1 & Hs).
      rewrite Hstuck in Hs. discriminate.
    + intros Hret.
      destruct (OutputFacts.returned_accounts io _ _ _ _ _ Hex Hret)
        as (done & Hperm & [Hc He] & _).
      split.
      * exists done. split; [exact Hperm | exact Hc].
      * rewrite He. f_equal. now apply OutputFacts.existsb_Permutation.
Qed.

(** A call with two workers on a stream that rejects the write of thread 1:
    the call returns all the same and the error indicator stays set. *)
Lemma hello_total_failures_untouched_witness :
  mylib_hello Demo.flaky 1 Demo.duo Demo.fresh tt
  = Some (Demo.final Demo.flaky 1 Demo.duo Demo.fresh)
  /\ ph (Demo.final Demo.flaky 1 Demo.duo Demo.fresh) = Returned
  /\ error (stdout (Demo.final Demo.flaky 1 Demo.duo Demo.fresh))
     = (error Demo.fresh
        || existsb (fun i => failed (Demo.flaky i)) (seq 0 (workerCount 1)))%bool.
Proof.
  assert (H1 : mylib_hello Demo.flaky 1 Demo.duo Demo.fresh tt
               = Some (Demo.final Demo.flaky 1 Demo.duo Demo.fresh)) by reflexivity.
  assert (H2 : ph (Demo.final Demo.flaky 1 Demo.duo Demo.fresh) = Returned)
    by reflexivity.
  split; [exact H1 |]. split; [exact H2 |].
  exact (proj2 (proj2 (proj2 (proj2
           (proj2 (hello_total_failures_untouched Demo.flaky 1 Demo.fresh tt)
              Demo.duo _ H1))) H2)).
Defined.

Lemma existsb_healthy (l : list nat) :
  existsb (fun i => failed (healthy i)) l = false.
Proof. induction l as [|i l IH]; simpl; [reflexivity | exact IH]. Qed.

(** C8. In every state of an execution of a call, everything in the process
    other than standard output is as it was when the call was made, and
    standard output is what it was then followed by what the call has printed
    so far; its error indicator is unchanged. *)
Theorem hello_writes_only_stdout {E : Type} (extra : nat) (sch : list move)
    (f0 : stream) (e0 : E) (s : state E) :
  mylib_hello healthy extra sch f0 e0 = Some s ->
  ext s = e0
  /\ content (stdout s) = (content f0 ++ printed f0 s)%string
  /\ error (stdout s) = error f0.
Proof.
  intros Hrun.
  destruct (HelloFacts.call_inv healthy _ _ _ _ _ Hrun) as [[He Hinv] Hnc].
  split; [exact He |].
  assert (Hacc : exists done, accounts healthy f0 (stdout s) done).
  { destruct (ph s) as [|team|]; [congruence | |].
    - destruct Hinv as (_ & _ & done & _ & _ & Hacc). eauto.
    - destruct Hinv as (done & _ & Hacc). eauto. }
  destruct Hacc as (done & Hc & Herr).
  split.
  - unfold printed. simpl. rewrite Hc at 2. rewrite TextFacts.drop_app. exact Hc.
  - rewrite Herr, existsb_healthy. apply orb_false_r.
Qed.

Lemma hello_writes_only_stdout_witness :
  mylib_hello healthy 1 Demo.duo Demo.used (7%nat, "HOME=/root"%string)
  = Some (State Returned
            (stdout (Demo.final healthy 1 Demo.duo Demo.used))
            (7%nat, "HOME=/root"%string))
  /\ ext (State Returned
            (stdout (Demo.final healthy 1 Demo.duo Demo.used))
            (7%nat, "HOME=/root"%string))
     = (7%nat, "HOME=/root"%string).
Proof.
  assert (H1 : mylib_hello healthy 1 Demo.duo Demo.used (7%nat, "HOME=/root"%string)
               = Some (State Returned
                         (stdout (Demo.final healthy 1 Demo.duo Demo.used))
                         (7%nat, "HOME=/root"%string))) by reflexivity.
  split; [exact H1 |].
  exact (proj1 (hello_writes_only_stdout 1 Demo.duo Demo.used _ _ H1)).
Defined.

(** C9. The text of every [printf] of the call is a line with no newline in
    it followed by one newline.  So at any moment of a call what it has
    printed is exactly its lines, each followed by one newline: no line is
    empty and none is left unterminated.  There are never more newlines than
    workers, and as many as workers once the call has returned. *)
Theorem hello_lines_end_with_one_newline {E : Type} (extra : nat) (sch : list move)
    (f0 : stream) (e0 : E) (s : state E) :
  mylib_hello healthy extra sch f0 e0 = Some s ->
  (forall tid : Z, exists l : string,
        format hello_fmt tid = (l ++ String nl EmptyString)%string
        /\ count_nl l = O)
  /\ printed f0 s
     = cat (map (fun l => (l ++ String nl EmptyString)%string)
              (complete_lines (printed f0 s)))
  /\ Forall (fun l => count_nl l = O /\ l <> EmptyString)
       (complete_lines (printed f0 s))
  /\ pending (printed f0 s) = EmptyString
  /\ (count_nl (printed f0 s) <= workerCount extra)%nat
  /\ (ph s = Returned -> count_nl (printed f0 s) = workerCount extra).
Proof.
  intros Hrun. split.
  { intros tid. exists (line_of tid).
    split; [apply OutputFacts.format_hello | apply OutputFacts.line_of_no_nl]. }
  destruct (OutputFacts.reached_lines _ _ _ _ _ Hrun)
    as (done & Hnd & Hlt & Hperm & Htext & Hlines & Hpend).
  split; [now rewrite Hlines |].
  split.
  { rewrite Hlines. apply List.Forall_forall. intros l Hl.
    apply in_map_iff in Hl as (i & <- & _).
    split; [apply OutputFacts.line_of_no_nl | apply OutputFacts.line_of_not_empty]. }
  split; [exact Hpend |].
  rewrite <- TextFacts.length_complete_lines, Hlines, length_map.
  split.
  - assert (Hincl : incl done (seq 0 (workerCount extra))).
    { intros i Hi. apply in_seq. specialize (Hlt i Hi). unfold workerCount. lia. }
    pose proof (NoDup_incl_length Hnd Hincl) as Hlen.
    now rewrite length_seq in Hlen.
  - intros Hret. rewrite (Permutation_length (Hperm Hret)). apply length_seq.
Qed.

Lemma hello_lines_end_with_one_newline_witness :
  mylib_hello healthy 3 Demo.quartet Demo.used tt
  = Some (Demo.final healthy 3 Demo.quartet Demo.used)
  /\ pending (printed Demo.used (Demo.final healthy 3 Demo.quartet Demo.used))
     = EmptyString
  /\ (count_nl (printed Demo.used (Demo.final healthy 3 Demo.quartet Demo.used))
      <= workerCount 3)%nat.
Proof.
  assert (H1 : mylib_hello healthy 3 Demo.quartet Demo.used tt
               = Some (Demo.final healthy 3 Demo.quartet Demo.used)) by reflexivity.
  split; [exact H1 |].
  split.
  - exact (proj1 (proj2 (proj2 (proj2
             (hello_lines_end_with_one_newline 3 Demo.quartet Demo.used tt _ H1))))).
  - exact (proj1 (proj2 (proj2 (proj2 (proj2
             (hello_lines_end_with_one_newline 3 Demo.quartet Demo.used tt _ H1)))))).
Defined.

(** C10. The team always has at least one member, the encountering thread,
    which is thread 0: whatever the number of extra threads (none included),
    a call runs to its return, and a call that has returned has printed at
    least one line, the line [[mylib] Hello from thread 0] among them. *)
Theorem hello_thread_zero_always_greets {E : Type} (extra : nat)
    (f0 : stream) (e0 : E) :
  (1 <= workerCount extra)%nat
  /\ (exists (sch : list move) (s' : state E),
         mylib_hello healthy extra sch f0 e0 = Some s' /\ ph s' = Returned)
  /\ forall (sch : list move) (s' : state E),
       mylib_hello healthy extra sch f0 e0 = Some s' ->
       ph s' = Returned ->
       (1 <= length (complete_lines (printed f0 s')))%nat
       /\ In "[mylib] Hello from thread 0"%string
            (complete_lines (printed f0 s')).
Proof.
  split; [unfold workerCount; lia |].
  split; [apply HelloFacts.call_returns |].
  intros sch s' Hrun Hret.
  destruct (OutputFacts.returned_lines _ _ _ _ _ Hrun Hret)
    as (done & Hperm & _ & Hlines & _).
  rewrite Hlines, length_map, (Permutation_length Hperm), length_seq.
  split; [lia |].
  change "[mylib] Hello from thread 0"%string with (line_of (omp_get_thread_num 0)).
  apply (in_map (fun i => line_of (omp_get_thread_num i)) done 0%nat).
  apply (Permutation_in _ (Permutation_sym Hperm)).
  apply in_seq. lia.
Qed.

Lemma hello_thread_zero_always_greets_witness :
  mylib_hello healthy 0 Demo.solo Demo.fresh tt
  = Some (Demo.final healthy 0 Demo.solo Demo.fresh)
  /\ ph (Demo.final healthy 0 Demo.solo Demo.fresh) = Returned
  /\ In "[mylib] Hello from thread 0"%string
       (complete_lines
          (printed Demo.fresh (Demo.final healthy 0 Demo.solo Demo.fresh))).
Proof.
  assert (H1 : mylib_hello healthy 0 Demo.solo Demo.fresh tt
               = Some (Demo.final healthy 0 Demo.solo Demo.fresh)) by reflexivity.
  assert (H2 : ph (Demo.final healthy 0 Demo.solo Demo.fresh) = Returned)
    by reflexivity.
  split; [exact H1 |]. split; [exact H2 |].
  exact (proj2 (proj2 (proj2 (hello_thread_zero_always_greets 0 Demo.fresh tt))
                  Demo.solo _ H1 H2)).
Defined.

(** * Further properties of mylib_hello *)

Module More.
Import Schedules.
Import HelloFacts OutputFacts.

(** ** Standard output only grows *)





(** On any stream, in any state of a call: the rest of the process is as it
    was and standard output is what it held followed by what was printed. *)
Lemma hello_writes_only_stdout_frame {E : Type} (io : nat -> outcome) (extra : nat)
    (sch : list move) (f0 : stream) (e0 : E) (s : state E) :
  mylib_hello io extra sch f0 e0 = Some s ->
  ext s = e0
  /\ content (stdout s) = (content f0 ++ printed f0 s)%string.
Proof.
  intros Hex.
  destruct (call_inv io _ _ _ _ _ Hex) as [[He _] _].
  destruct (reached_accounts io _ _ _ _ _ Hex) as (done & _ & _ & [Hc _] & _).
  split; [exact He |].
  unfold printed. rewrite Hc at 2. rewrite TextFacts.drop_app. exact Hc.
Qed.

(** ** Two calls in a row *)

(** After a text that ends with a newline, the lines of what follows are
    simply added. *)
Lemma split_nl_app (a t : string) :
  pending a = EmptyString ->
  split_nl (a ++ t)%string = complete_lines a ++ split_nl t.
Proof.
  unfold pending, complete_lines.
  induction a as [|c a IH]; simpl; [reflexivity |].
  destruct (is_nl c).
  - pose proof (TextFacts.split_nl_not_nil a) as Hne.
    destruct (split_nl a) as [|l ls] eqn:Ha; [contradiction |].
    intros Hp. simpl. f_equal. apply IH. exact Hp.
  - destruct (split_nl a) as [|l ls] eqn:Ha.
    + discriminate.
    + destruct ls as [|l' ls'].
      * discriminate.
      * intros Hp. rewrite (IH Hp). reflexivity.
Qed.

Lemma last_app_not_nil {A : Type} (l1 l2 : list A) (d : A) :
  l2 <> [] -> List.last (l1 ++ l2) d = List.last l2 d.
Proof.
  intros Hne. induction l1 as [|x l1 IH]; simpl; [reflexivity |].
  destruct (l1 ++ l2) as [|y l] eqn:Happ; [| exact IH].
  apply app_eq_nil in Happ as [_ ->]. contradiction.
Qed.

Lemma complete_lines_app (a t : string) :
  pending a = EmptyString ->
  complete_lines (a ++ t)%string = complete_lines a ++ complete_lines t
  /\ pending (a ++ t)%string = pending t.
Proof.
  intros Hp. unfold complete_lines at 1, pending at 1.
  rewrite (split_nl_app a t Hp). split.
  - apply removelast_app, TextFacts.split_nl_not_nil.
  - apply last_app_not_nil, TextFacts.split_nl_not_nil.
Qed.

(** X2. A second call made after a first one has returned, in the process as the
    first one left it and with a team of its own size: when it has returned,
    standard output holds the lines of the first call followed by those of the
    second (the lines of the two calls do not mix), [workerCount] of the first
    plus [workerCount] of the second in all. *)
Theorem two_calls_in_a_row {E : Type} (extra1 extra2 : nat) (sch1 sch2 : list move)
    (f0 : stream) (e0 : E) (s1 s2 : state E) :
  mylib_hello healthy extra1 sch1 f0 e0 = Some s1 ->
  ph s1 = Returned ->
  mylib_hello healthy extra2 sch2 (stdout s1) (ext s1) = Some s2 ->
  ph s2 = Returned ->
  complete_lines (printed f0 s2)
  = complete_lines (printed f0 s1) ++ complete_lines (printed (stdout s1) s2)
  /\ length (complete_lines (printed f0 s2))
     = (workerCount extra1 + workerCount extra2)%nat
  /\ pending (printed f0 s2) = EmptyString
  /\ ext s2 = e0.
Proof.
  intros H1 R1 H2 R2.
  destruct (hello_writes_only_stdout_frame healthy _ _ _ _ _ H1) as (He1 & Hc1).
  destruct (hello_writes_only_stdout_frame healthy _ _ _ _ _ H2) as (He2 & Hc2).
  destruct (returned_lines _ _ _ _ _ H1 R1) as (d1 & Hp1 & _ & Hl1 & Hpend1).
  destruct (returned_lines _ _ _ _ _ H2 R2) as (d2 & Hp2 & _ & Hl2 & Hpend2).
  assert (Hcat : printed f0 s2
                 = (printed f0 s1 ++ printed (stdout s1) s2)%string).
  { unfold printed at 1. rewrite Hc2, Hc1, <- TextFacts.app_assoc.
    apply TextFacts.drop_app. }
  destruct (complete_lines_app _ (printed (stdout s1) s2) Hpend1) as [Hl Hp].
  rewrite Hcat, Hl, Hp. split; [reflexivity |].
  split; [| split; [exact Hpend2 | congruence]].
  rewrite List.length_app, Hl1, Hl2, !length_map.
  rewrite (Permutation_length Hp1), (Permutation_length Hp2), !length_seq.
  reflexivity.
Qed.

Lemma two_calls_in_a_row_witness :
  mylib_hello healthy 1 Demo.duo Demo.used tt
  = Some (Demo.final healthy 1 Demo.duo Demo.used)
  /\ ph (Demo.final healthy 1 Demo.duo Demo.used) = Returned
  /\ mylib_hello healthy 0 Demo.solo
       (stdout (Demo.final healthy 1 Demo.duo Demo.used))
       (ext (Demo.final healthy 1 Demo.duo Demo.used))
     = Some (Demo.final healthy 0 Demo.solo
               (stdout (Demo.final healthy 1 Demo.duo Demo.used)))
  /\ ph (Demo.final healthy 0 Demo.solo
           (stdout (Demo.final healthy 1 Demo.duo Demo.used))) = Returned
  /\ length (complete_lines
               (printed Demo.used
                  (Demo.final healthy 0 Demo.solo
                     (stdout (Demo.final healthy 1 Demo.duo Demo.used)))))
     = (workerCount 1 + workerCount 0)%nat.
Proof.
  assert (H1 : mylib_hello healthy 1 Demo.duo Demo.used tt
               = Some (Demo.final healthy 1 Demo.duo Demo.used)) by reflexivity.
  assert (H2 : ph (Demo.final healthy 1 Demo.duo Demo.used) = Returned) by reflexivity.
  assert (H3 : mylib_hello healthy 0 Demo.solo
                 (stdout (Demo.final healthy 1 Demo.duo Demo.used))
                 (ext (Demo.final healthy 1 Demo.duo Demo.used))
               = Some (Demo.final healthy 0 Demo.solo
                         (stdout (Demo.final healthy 1 Demo.duo Demo.used))))
    by reflexivity.
  assert (H4 : ph (Demo.final healthy 0 Demo.solo
                     (stdout (Demo.final healthy 1 Demo.duo Demo.used))) = Returned)
    by reflexivity.
  split; [exact H1 |]. split; [exact H2 |]. split; [exact H3 |]. split; [exact H4 |].
  exact (proj1 (proj2 (two_calls_in_a_row 1 0 _ _ Demo.used tt _ _ H1 H2 H3 H4))).
Defined.

(** ** Every thread runs the block once *)

Local Open Scope nat_scope.

Lemma runs_app (i : nat) (a b : list move) : runs i (a ++ b) = runs i a + runs i b.
Proof.
  induction a as [|m a IH]; simpl; [reflexivity |].
  destruct m; simpl; rewrite IH; lia.
Qed.

(** Inside the region, the moves of a thread in a schedule are the statements
    it had left minus those it still has left; a thread that is not in the
    team makes no move, and no second team is forked. *)
Lemma region_runs {E : Type} (io : nat -> outcome) (sch : list move)
    (s s' : state E) (team : list pc) :
  ph s = InRegion team ->
  exec io sch s = Some s' ->
  existsb is_fork sch = false
  /\ forall i,
       match team !! i with
       | Some p => runs i sch + steps_left_of s' i = steps_left p
       | None => runs i sch = 0
       end.
Proof.
  revert s team. induction sch as [|m sch IH]; intros s team Hph; simpl.
  - intros [= <-]. split; [reflexivity |]. intros i.
    unfold steps_left_of. rewrite Hph. destruct (team !! i); reflexivity.
  - destruct (step io m s) as [s1|] eqn:Hs; [| discriminate]. intros Hex.
    destruct s as [p f e]. simpl in Hph. subst p.
    destruct m as [extra|i0|]; simpl in Hs.
    + discriminate.
    + unfold thread_step in Hs. simpl in Hs.
      destruct (team !! i0) as [p0|] eqn:Hi0; [| discriminate].
      assert (Hstep : exists p1, steps_left p0 = S (steps_left p1)
                                 /\ ph s1 = InRegion (<[i0 := p1]> team)).
      { destruct p0 as [|tid|]; try discriminate.
        - injection Hs as <-. exists (AtPrintf (omp_get_thread_num i0)).
          split; reflexivity.
        - destruct (printf (io i0) f hello_fmt tid). injection Hs as <-.
          exists AtEnd. split; reflexivity. }
      destruct Hstep as (p1 & Hp1 & Hph1).
      destruct (IH s1 _ Hph1 Hex) as [Hnf Hruns].
      split; [exact Hnf |]. intros i. specialize (Hruns i).
      destruct (Nat.eqb_spec i i0) as [->|Hne].
      * rewrite list_lookup_insert_eq in Hruns
          by (apply lookup_lt_is_Some; eauto).
        rewrite Hi0. lia.
      * rewrite list_lookup_insert_ne in Hruns by congruence.
        destruct (team !! i); lia.
    + unfold join in Hs. simpl in Hs.
      destruct (forallb at_end team) eqn:Hall; [| discriminate].
      injection Hs as <-.
      destruct (returned_final io sch (State Returned f e) s' eq_refl Hex)
        as [-> ->].
      split; [reflexivity |]. intros i. unfold steps_left_of. simpl.
      destruct (team !! i) as [p|] eqn:Hi; [| reflexivity].
      rewrite all_at_end in Hall.
      rewrite Hall in Hi by (apply lookup_lt_is_Some; eauto).
      injection Hi as <-. reflexivity.
Qed.

Lemma call_runs {E : Type} (io : nat -> outcome) (extra : nat) (sch : list move)
    (f0 : stream) (e0 : E) (s : state E) :
  mylib_hello io extra sch f0 e0 = Some s ->
  existsb is_fork sch = false
  /\ (forall i, i < S extra -> runs i sch + steps_left_of s i = 2)
  /\ (forall i, S extra <= i -> runs i sch = 0).
Proof.
  intros Hex.
  assert (Hruns : existsb is_fork sch = false
            /\ forall i,
                 match replicate (S extra) AtGetTid !! i with
                 | Some p => runs i sch + steps_left_of s i = steps_left p
                 | None => runs i sch = 0
                 end).
  { apply (region_runs io sch
             (State (InRegion (replicate (S extra) AtGetTid)) f0 e0) s);
      [reflexivity | exact Hex]. }
  destruct Hruns as [Hnf Hruns]. split; [exact Hnf |]. split.
  - intros i Hi. specialize (Hruns i).
    rewrite lookup_replicate_2 in Hruns by exact Hi. exact Hruns.
  - intros i Hi. specialize (Hruns i).
    rewrite (proj1 (lookup_replicate_None (S extra) AtGetTid i) Hi) in Hruns.
    exact Hruns.
Qed.

(** X3. Whatever the stream does, in an execution of a call no thread outside the
    team ever moves, no thread of the team makes more than two moves (the
    block has two statements and is run once), and no second team is forked.
    When the call has returned, every thread of the team has made exactly its
    two moves and the release of the barrier was the last move: the schedule
    has [2 * workerCount + 1] moves. *)
Theorem every_thread_runs_the_block_once {E : Type} (io : nat -> outcome)
    (extra : nat) (sch : list move) (f0 : stream) (e0 : E) (s : state E) :
  mylib_hello io extra sch f0 e0 = Some s ->
  existsb is_fork sch = false
  /\ (forall i, workerCount extra <= i -> runs i sch = 0)
  /\ (forall i, runs i sch <= 2)
  /\ (ph s = Returned ->
      (forall i, i < workerCount extra -> runs i sch = 2)
      /\ length sch = 2 * workerCount extra + 1
      /\ exists pre, sch = pre ++ [Join]).
Proof.
  intros Hex.
  destruct (call_runs io _ _ _ _ _ Hex) as (Hnf & Hin & Hout).
  split; [exact Hnf |].
  split; [exact Hout |].
  split.
  { intros i. destruct (Nat.lt_ge_cases i (S extra)) as [Hi|Hi].
    - specialize (Hin i Hi). lia.
    - rewrite (Hout i Hi). lia. }
  intros Hret. split; [| split].
  - intros i Hi. specialize (Hin i Hi).
    unfold steps_left_of in Hin. rewrite Hret in Hin. unfold workerCount in Hi. lia.
  - pose proof (call_length io _ _ _ _ _ Hex) as Hlen.
    unfold remaining in Hlen. rewrite Hret in Hlen. unfold workerCount. lia.
  - destruct (returned_by_join io (Fork extra :: sch) (call f0 e0) s)
      as (pre0 & mid & team & Hsch & _); [discriminate | exact Hex | exact Hret |].
    destruct pre0 as [|m pre]; simpl in Hsch; [discriminate |].
    injection Hsch as _ ->. eauto.
Qed.

Lemma every_thread_runs_the_block_once_witness :
  mylib_hello Demo.flaky 3 Demo.quartet Demo.fresh tt
  = Some (Demo.final Demo.flaky 3 Demo.quartet Demo.fresh)
  /\ (forall i, runs i Demo.quartet <= 2).
Proof.
  assert (H1 : mylib_hello Demo.flaky 3 Demo.quartet Demo.fresh tt
               = Some (Demo.final Demo.flaky 3 Demo.quartet Demo.fresh))
    by reflexivity.
  split; [exact H1 |].
  exact (proj1 (proj2 (proj2
           (every_thread_runs_the_block_once Demo.flaky 3 Demo.quartet
              Demo.fresh tt _ H1)))).
Defined.

(** ** The lines come out in the order of the [printf]s *)

Lemma printf_emitted (io : nat -> outcome) (f : stream) (i : nat) :
  content (fst (printf (io i) f hello_fmt (omp_get_thread_num i)))
  = (content f ++ emitted io i)%string.
Proof. unfold printf, emitted, greeting. destruct (io i); reflexivity. Qed.

(** From a state inside the region in which [once] lists the threads that
    have made a move: a schedule adds to the stream the writes of the threads
    in the order of their [printf]s. *)
Lemma print_order_exec {E : Type} (io : nat -> outcome) (sch : list move)
    (s s' : state E) (team : list pc) (once : list nat) :
  ph s = InRegion team ->
  (forall i, existsb (Nat.eqb i) once = true
             <-> exists p, team !! i = Some p /\ p <> AtGetTid) ->
  (forall i tid, team !! i = Some (AtPrintf tid) -> tid = omp_get_thread_num i) ->
  exec io sch s = Some s' ->
  content (stdout s')
  = (content (stdout s) ++ cat (map (emitted io) (print_order_from once sch)))%string.
Proof.
  revert s team once. induction sch as [|m sch IH]; intros s team once Hph Honce Htid.
  - simpl. intros [= <-]. now rewrite TextFacts.app_empty_r.
  - simpl. destruct (step io m s) as [s1|] eqn:Hs; [| discriminate]. intros Hex.
    destruct s as [p f e]. simpl in Hph. subst p.
    destruct m as [extra|i0|]; simpl in Hs.
    + discriminate.
    + unfold thread_step in Hs. simpl in Hs.
      destruct (team !! i0) as [[|tid|]|] eqn:Hi0; try discriminate.
      * (* first move of thread i0 *)
        injection Hs as <-.
        assert (Hno : existsb (Nat.eqb i0) once = false).
        { destruct (existsb (Nat.eqb i0) once) eqn:Hb; [| reflexivity].
          apply Honce in Hb as (p & Hp & Hne). congruence. }
        rewrite Hno.
        apply (IH (State (InRegion (<[i0 := AtPrintf (omp_get_thread_num i0)]> team)) f e)
                 (<[i0 := AtPrintf (omp_get_thread_num i0)]> team) (i0 :: once));
          [reflexivity | | | exact Hex].
        -- intros i. simpl. destruct (Nat.eqb_spec i i0) as [->|Hne]; simpl.
           ++ rewrite list_lookup_insert_eq by (apply lookup_lt_is_Some; eauto).
              split; intros _; [| reflexivity].
              eexists. split; [reflexivity | discriminate].
           ++ rewrite list_lookup_insert_ne by congruence. apply Honce.
        -- intros i tid. destruct (Nat.eq_dec i0 i) as [<-|Hne].
           ++ rewrite list_lookup_insert_eq by (apply lookup_lt_is_Some; eauto).
              now intros [= <-].
           ++ rewrite list_lookup_insert_ne by assumption. apply Htid.
      * (* second move of thread i0: its printf *)
        rewrite (Htid i0 tid Hi0) in Hs.
        pose proof (printf_emitted io f i0) as Hout.
        destruct (printf (io i0) f hello_fmt (omp_get_thread_num i0)) as [f' r].
        injection Hs as <-. simpl in Hout.
        assert (Hyes : existsb (Nat.eqb i0) once = true).
        { apply Honce. eexists. split; [exact Hi0 | discriminate]. }
        rewrite Hyes. cbn [map cat].
        rewrite (IH (State (InRegion (<[i0 := AtEnd]> team)) f' e)
                   (<[i0 := AtEnd]> team) once eq_refl); [| | | exact Hex].
        -- simpl. now rewrite Hout, TextFacts.app_assoc.
        -- intros i. rewrite Honce. destruct (Nat.eq_dec i0 i) as [<-|Hne].
           ++ rewrite list_lookup_insert_eq by (apply lookup_lt_is_Some; eauto).
              rewrite Hi0. split; intros _; eexists; split;
                try reflexivity; discriminate.
           ++ now rewrite list_lookup_insert_ne by assumption.
        -- intros i tid'. destruct (Nat.eq_dec i0 i) as [<-|Hne].
           ++ rewrite list_lookup_insert_eq by (apply lookup_lt_is_Some; eauto).
              discriminate.
           ++ rewrite list_lookup_insert_ne by assumption. apply Htid.
    + unfold join in Hs. simpl in Hs.
      destruct (forallb at_end team); [| discriminate]. injection Hs as <-.
      destruct (returned_final io sch (State Returned f e) s' eq_refl Hex)
        as [-> ->].
      simpl. now rewrite TextFacts.app_empty_r.
Qed.

Lemma print_order_moves (once : list nat) (sch : list move) (i : nat) :
  In i (print_order_from once sch) -> 1 <= runs i sch.
Proof.
  revert once. induction sch as [|m sch IH]; intros once; simpl; [intros [] |].
  destruct m as [extra|j|]; try apply IH.
  destruct (existsb (Nat.eqb j) once).
  - intros [<-|Hin]; [rewrite Nat.eqb_refl; lia |].
    specialize (IH _ Hin). lia.
  - intros Hin. specialize (IH _ Hin). lia.
Qed.

(** What a call has printed so far, on any stream, is the writes of the
    threads in the order of their [printf]s in the schedule. *)
Lemma call_print_order {E : Type} (io : nat -> outcome) (extra : nat)
    (sch : list move) (f0 : stream) (e0 : E) (s : state E) :
  mylib_hello io extra sch f0 e0 = Some s ->
  printed f0 s = cat (map (emitted io) (print_order sch)).
Proof.
  intros Hex. unfold printed.
  rewrite (print_order_exec io sch
             (State (InRegion (replicate (S extra) AtGetTid)) f0 e0) s
             (replicate (S extra) AtGetTid) []); [apply TextFacts.drop_app | | | | exact Hex].
  - reflexivity.
  - intros i. cbn [existsb]. split; [discriminate |].
    intros (p & Hp & Hne). apply lookup_replicate in Hp as [-> _]. contradiction.
  - intros i tid Hp. apply lookup_replicate in Hp as [[=] _].
Qed.

Lemma lines_in_print_order {E : Type} (extra : nat) (sch : list move)
    (f0 : stream) (e0 : E) (s : state E) :
  mylib_hello healthy extra sch f0 e0 = Some s ->
  complete_lines (printed f0 s)
  = map (fun i => line_of (omp_get_thread_num i)) (print_order sch).
Proof.
  intros Hex.
  rewrite (call_print_order healthy _ _ _ _ _ Hex), greetings_lines.
  apply TextFacts.complete_lines_cat, lines_no_nl.
Qed.

(** X4. At any moment of a call, the lines on standard output are those of the
    threads that have run their [printf], in the order in which the schedule
    let them run it: the k-th line is the line of the thread that was the k-th
    to make its second move.  For a team that fits in [int], the indices read
    back from the lines are these thread numbers, in that order. *)
Theorem lines_follow_the_schedule {E : Type} (extra : nat) (sch : list move)
    (f0 : stream) (e0 : E) (s : state E) :
  mylib_hello healthy extra sch f0 e0 = Some s ->
  complete_lines (printed f0 s)
  = map (fun i => line_of (omp_get_thread_num i)) (print_order sch)
  /\ ((Z.of_nat (workerCount extra) <= CInt.INT_MAX)%Z ->
      printed_indices (printed f0 s) = map Z.of_nat (print_order sch)).
Proof.
  intros Hex.
  pose proof (lines_in_print_order extra sch f0 e0 s Hex) as Hlines.
  split; [exact Hlines |].
  intros Hmax. unfold printed_indices. rewrite Hlines, indices_of_lines.
  apply map_ext_in. intros i Hi. apply thread_num_small.
  apply print_order_moves in Hi.
  destruct (call_runs healthy _ _ _ _ _ Hex) as (_ & _ & Hout).
  assert (i < workerCount extra).
  { destruct (Nat.lt_ge_cases i (workerCount extra)) as [Hlt|Hge]; [exact Hlt |].
    rewrite (Hout i Hge) in Hi. lia. }
  lia.
Qed.

Lemma lines_follow_the_schedule_witness :
  mylib_hello healthy 3 Demo.quartet Demo.used tt
  = Some (Demo.final healthy 3 Demo.quartet Demo.used)
  /\ complete_lines (printed Demo.used (Demo.final healthy 3 Demo.quartet Demo.used))
     = map (fun i => line_of (omp_get_thread_num i)) (print_order Demo.quartet).
Proof.
  assert (H1 : mylib_hello healthy 3 Demo.quartet Demo.used tt
               = Some (Demo.final healthy 3 Demo.quartet Demo.used)) by reflexivity.
  split; [exact H1 |].
  exact (proj1 (lines_follow_the_schedule 3 Demo.quartet Demo.used tt _ H1)).
Defined.

(** ** Any order of the lines is possible *)

(** Running the whole block for the threads of [order], one after the other,
    from a state in which they all stand at the top of the block. *)
Lemma blocks_exec {E : Type} (io : nat -> outcome) (order : list nat)
    (s : state E) (team : list pc) :
  ph s = InRegion team ->
  List.NoDup order ->
  (forall i, In i order -> team !! i = Some AtGetTid) ->
  exists (s' : state E) (team' : list pc),
    exec io (flat_map (fun i => [Run i; Run i]) order) s = Some s'
    /\ ph s' = InRegion team'
    /\ length team' = length team
    /\ (forall j, In j order -> team' !! j = Some AtEnd)
    /\ (forall j, ~ In j order -> team' !! j = team !! j).
Proof.
  revert s team. induction order as [|i order IH]; intros s team Hph Hnd Htop.
  - exists s, team. simpl. repeat split; [exact Hph | intros j [] ].
  - destruct s as [p f e]. simpl in Hph. subst p.
    inversion Hnd as [|? ? Hni Hnd']; subst.
    assert (Hi : team !! i = Some AtGetTid) by (apply Htop; now left).
    assert (Hlt : i < length team) by (apply lookup_lt_is_Some; eauto).
    destruct (printf (io i) f hello_fmt (omp_get_thread_num i)) as [f' r] eqn:Hpr.
    set (team1 := <[i := AtEnd]> (<[i := AtPrintf (omp_get_thread_num i)]> team)).
    destruct (IH (State (InRegion team1) f' e) team1 eq_refl Hnd')
      as (s' & team' & Hex & Hph' & Hlen & Hin & Hout).
    { intros j Hj. unfold team1.
      assert (i <> j) by (intros ->; contradiction).
      rewrite !list_lookup_insert_ne by assumption. apply Htop. now right. }
    exists s', team'.
    split.
    { cbn [flat_map app exec step]. unfold thread_step at 1. cbn [ph stdout ext].
      rewrite Hi. unfold thread_step at 1. cbn [ph stdout ext].
      rewrite list_lookup_insert_eq by exact Hlt. rewrite Hpr. exact Hex. }
    split; [exact Hph' |].
    split; [rewrite Hlen; unfold team1; now rewrite !length_insert |].
    split.
    + intros j [<-|Hj]; [| now apply Hin].
      rewrite (Hout i Hni). unfold team1.
      apply list_lookup_insert_eq. now rewrite length_insert.
    + intros j Hj. rewrite Hout by (intros Hin'; apply Hj; now right).
      unfold team1. assert (i <> j) by (intros ->; apply Hj; now left).
      now rewrite !list_lookup_insert_ne by assumption.
Qed.

Lemma print_order_blocks (once order : list nat) :
  List.NoDup order ->
  (forall i, In i order -> existsb (Nat.eqb i) once = false) ->
  print_order_from once (block_by_block order) = order.
Proof.
  unfold block_by_block. revert once.
  induction order as [|i order IH]; intros once Hnd Honce; [reflexivity |].
  inversion Hnd as [|? ? Hni Hnd']; subst.
  cbn [flat_map app print_order_from].
  rewrite (Honce i) by now left.
  cbn [existsb]. rewrite Nat.eqb_refl. cbn [orb]. f_equal.
  apply IH; [exact Hnd' |].
  intros j Hj. cbn [existsb].
  rewrite (Honce j) by now right.
  destruct (Nat.eqb_spec j i) as [->|]; [contradiction | reflexivity].
Qed.

(** X5. The source puts no order on the threads: for every order of the thread
    numbers of the team there is an execution of the call, the one that lets
    the threads run the block one after the other in that order, that returns
    with the lines printed in exactly that order. *)
Theorem any_order_is_possible {E : Type} (extra : nat) (order : list nat)
    (f0 : stream) (e0 : E) :
  Permutation order (seq 0 (workerCount extra)) ->
  exists s' : state E,
    mylib_hello healthy extra (block_by_block order) f0 e0 = Some s'
    /\ ph s' = Returned
    /\ complete_lines (printed f0 s')
       = map (fun i => line_of (omp_get_thread_num i)) order.
Proof.
  intros Hperm.
  assert (Hnd : List.NoDup order).
  { apply (Permutation.Permutation_NoDup (Permutation_sym Hperm)), seq_NoDup. }
  assert (Hin : forall i, In i order <-> i < S extra).
  { intros i. split; intros Hi.
    - apply (Permutation_in _ Hperm), in_seq in Hi. unfold workerCount in Hi. lia.
    - apply (Permutation_in _ (Permutation_sym Hperm)), in_seq.
      unfold workerCount. lia. }
  destruct (blocks_exec healthy order
              (State (InRegion (replicate (S extra) AtGetTid)) f0 e0)
              (replicate (S extra) AtGetTid) eq_refl Hnd)
    as (s1 & team1 & Hex & Hph1 & Hlen & Hdone & _).
  { intros i Hi. apply lookup_replicate_2. now apply Hin. }
  assert (Hjoin : exists s', join s1 = Some s' /\ ph s' = Returned).
  { destruct s1 as [p f e]. simpl in Hph1. subst p. unfold join. simpl.
    assert (Hall : forallb at_end team1 = true).
    { apply all_at_end. intros i Hi. apply Hdone, Hin.
      rewrite Hlen, length_replicate in Hi. exact Hi. }
    rewrite Hall. eauto. }
  destruct Hjoin as (s' & Hj & Hret).
  assert (Hrun : mylib_hello healthy extra (block_by_block order) f0 e0 = Some s').
  { unfold mylib_hello, block_by_block.
    change (exec healthy (Fork extra :: ?l) (call f0 e0))
      with (exec healthy l (State (InRegion (replicate (S extra) AtGetTid)) f0 e0)).
    rewrite exec_app, Hex. simpl. now rewrite Hj. }
  exists s'. split; [exact Hrun |]. split; [exact Hret |].
  rewrite (lines_in_print_order extra _ f0 e0 s' Hrun).
  unfold print_order. rewrite print_order_blocks; [reflexivity | exact Hnd |].
  reflexivity.
Qed.

Lemma any_order_is_possible_witness :
  Permutation [2; 0; 1] (seq 0 (workerCount 2))
  /\ exists s' : state unit,
       mylib_hello healthy 2 (block_by_block [2; 0; 1]) Demo.used tt = Some s'
       /\ ph s' = Returned
       /\ complete_lines (printed Demo.used s')
          = map (fun i => line_of (omp_get_thread_num i)) [2; 0; 1].
Proof.
  assert (H1 : Permutation [2; 0; 1] (seq 0 (workerCount 2)))
    by exact (Permutation_cons_append [0; 1] 2).
  split; [exact H1 |].
  exact (any_order_is_possible 2 [2; 0; 1] Demo.used tt H1).
Defined.

(** ** A write that fails costs its own line only *)





End More.
